(** * Options of the GitHub release-page announcer

    Shallow embedding of [pkg/announce/github/options.go] and the
    properties of its builder, [Validate], [ParseSubstitutions],
    [SetRepository] and [ReadTemplate].

    Go strings are byte sequences: they are modelled by [string] (a list
    of 8-bit [ascii]).  A [*Options] is a location in a heap of [Options]
    records, so that a method mutating its receiver and a builder
    returning "the same instance" keep their meaning.  The [error]
    interface value is an [option error], with [None] for Go's [nil]. *)

From Stdlib Require Import ZArith Ascii.
From Stdlib Require String.
From stdpp Require Import base option list gmap fin_maps strings.

Local Open Scope Z_scope.

(** ** The [error] values the file builds *)

(** [errorString] is what [errors.New] returns, [wrapError] what
    [fmt.Errorf] returns for a format with one [%w] verb.  An error that
    comes from another package is one of these too: only its [Error]
    text and what it wraps are ever observed. *)
Inductive error : Type :=
| errorString (s : string)
| wrapError (msg : string) (err : error).

Definition Error (e : error) : string :=
  match e with
  | errorString s => s
  | wrapError msg _ => msg
  end.

Definition Unwrap (e : error) : option error :=
  match e with
  | errorString _ => None
  | wrapError _ err => Some err
  end.

Module errors.
Definition New (text : string) : error := errorString text.
End errors.

(** ** Collaborators that live outside the file

    [explode] and [Count] are the helpers of Go's [strings] package that
    [genSplit] calls for an empty separator and for a negative count;
    [ParseRepoSlug] is [git.ParseRepoSlug] of release-sdk, which returns
    [(org, repo, err)]. *)
Class Externals := {
  explode : string → Z → list string;
  Count : string → string → Z;
  ParseRepoSlug : string → string * string * option error
}.

(** ** Package [strings] *)
Module strings.

Definition len (s : string) : Z := Z.of_nat (String.length s).

(** [s[lo:]] and [s[:hi]].  Go panics on an index out of range; the
    indices used here come from [Index] and are in range. *)
Definition slice_from (s : string) (lo : Z) : string :=
  String.substring (Z.to_nat lo) (String.length s - Z.to_nat lo) s.

Definition slice_to (s : string) (hi : Z) : string :=
  String.substring 0 (Z.to_nat hi) s.

(** [Index] is the byte index of the first instance of [substr] in
    [s], or [-1]. *)
Fixpoint Index (s substr : string) : Z :=
  if String.prefix substr s then 0
  else match s with
       | EmptyString => -1
       | String _ s' =>
           let m := Index s' substr in
           if m <? 0 then -1 else m + 1
       end.

(** The loop of [genSplit]; [k] is the number of iterations left
    ([n - i] in the source). *)
Fixpoint genSplit_loop (s sep : string) (sepSave : Z) (k : nat) : list string :=
  match k with
  | O => [s]
  | S k' =>
      let m := Index s sep in
      if m <? 0 then [s]
      else slice_to s (m + sepSave)
           :: genSplit_loop (slice_from s (m + len sep)) sep sepSave k'
  end.

Definition genSplit `{Externals} (s sep : string) (sepSave n : Z) : list string :=
  if n =? 0 then []
  else if String.eqb sep "" then explode s n
  else
    let n := if n <? 0 then Count s sep + 1 else n in
    let n := if n >? len s + 1 then len s + 1 else n in
    genSplit_loop s sep sepSave (Z.to_nat (n - 1)).

Definition SplitN `{Externals} (s sep : string) (n : Z) : list string :=
  genSplit s sep 0 n.

End strings.

(** ** Package [fmt] *)
Module fmt.

(** A format with one two-byte verb ([%s], [%w]) at byte [i]: the verb
    is replaced by the argument's text. *)
Definition Sprintf (format verb arg : string) : string :=
  let i := strings.Index format verb in
  if i <? 0 then format
  else strings.slice_to format i +:+ arg +:+ strings.slice_from format (i + 2).

Definition Errorf (format : string) (err : error) : error :=
  wrapError (Sprintf format "%w" (Error err)) err.

End fmt.

(** ** The data model *)

(** The [Options] struct.  A slice and a map are reference types whose
    zero value is [nil]: [None] stands for it, [Some] carries the
    elements of a slice or the entries of a map. *)
Record Options : Type := mkOptions {
  releaseType : string;
  assetFiles : option (list string);
  tag : string;
  name : string;
  owner : string;
  repo : string;
  noMock : bool;
  draft : bool;
  updateIfReleaseExists : bool;
  pageTemplate : string;
  releaseNotesFile : string;
  substitutions : option (gmap string string)
}.

(** Field assignments [o.f = x], one per field of the struct. *)
Definition set_releaseType (x : string) (v : Options) : Options :=
  {| releaseType := x;
     assetFiles := assetFiles v;
     tag := tag v;
     name := name v;
     owner := owner v;
     repo := repo v;
     noMock := noMock v;
     draft := draft v;
     updateIfReleaseExists := updateIfReleaseExists v;
     pageTemplate := pageTemplate v;
     releaseNotesFile := releaseNotesFile v;
     substitutions := substitutions v |}.

Definition set_assetFiles (x : option (list string)) (v : Options) : Options :=
  {| releaseType := releaseType v;
     assetFiles := x;
     tag := tag v;
     name := name v;
     owner := owner v;
     repo := repo v;
     noMock := noMock v;
     draft := draft v;
     updateIfReleaseExists := updateIfReleaseExists v;
     pageTemplate := pageTemplate v;
     releaseNotesFile := releaseNotesFile v;
     substitutions := substitutions v |}.

Definition set_tag (x : string) (v : Options) : Options :=
  {| releaseType := releaseType v;
     assetFiles := assetFiles v;
     tag := x;
     name := name v;
     owner := owner v;
     repo := repo v;
     noMock := noMock v;
     draft := draft v;
     updateIfReleaseExists := updateIfReleaseExists v;
     pageTemplate := pageTemplate v;
     releaseNotesFile := releaseNotesFile v;
     substitutions := substitutions v |}.

Definition set_name (x : string) (v : Options) : Options :=
  {| releaseType := releaseType v;
     assetFiles := assetFiles v;
     tag := tag v;
     name := x;
     owner := owner v;
     repo := repo v;
     noMock := noMock v;
     draft := draft v;
     updateIfReleaseExists := updateIfReleaseExists v;
     pageTemplate := pageTemplate v;
     releaseNotesFile := releaseNotesFile v;
     substitutions := substitutions v |}.

Definition set_owner (x : string) (v : Options) : Options :=
  {| releaseType := releaseType v;
     assetFiles := assetFiles v;
     tag := tag v;
     name := name v;
     owner := x;
     repo := repo v;
     noMock := noMock v;
     draft := draft v;
     updateIfReleaseExists := updateIfReleaseExists v;
     pageTemplate := pageTemplate v;
     releaseNotesFile := releaseNotesFile v;
     substitutions := substitutions v |}.

Definition set_repo (x : string) (v : Options) : Options :=
  {| releaseType := releaseType v;
     assetFiles := assetFiles v;
     tag := tag v;
     name := name v;
     owner := owner v;
     repo := x;
     noMock := noMock v;
     draft := draft v;
     updateIfReleaseExists := updateIfReleaseExists v;
     pageTemplate := pageTemplate v;
     releaseNotesFile := releaseNotesFile v;
     substitutions := substitutions v |}.

Definition set_noMock (x : bool) (v : Options) : Options :=
  {| releaseType := releaseType v;
     assetFiles := assetFiles v;
     tag := tag v;
     name := name v;
     owner := owner v;
     repo := repo v;
     noMock := x;
     draft := draft v;
     updateIfReleaseExists := updateIfReleaseExists v;
     pageTemplate := pageTemplate v;
     releaseNotesFile := releaseNotesFile v;
     substitutions := substitutions v |}.

Definition set_draft (x : bool) (v : Options) : Options :=
  {| releaseType := releaseType v;
     assetFiles := assetFiles v;
     tag := tag v;
     name := name v;
     owner := owner v;
     repo := repo v;
     noMock := noMock v;
     draft := x;
     updateIfReleaseExists := updateIfReleaseExists v;
     pageTemplate := pageTemplate v;
     releaseNotesFile := releaseNotesFile v;
     substitutions := substitutions v |}.

Definition set_updateIfReleaseExists (x : bool) (v : Options) : Options :=
  {| releaseType := releaseType v;
     assetFiles := assetFiles v;
     tag := tag v;
     name := name v;
     owner := owner v;
     repo := repo v;
     noMock := noMock v;
     draft := draft v;
     updateIfReleaseExists := x;
     pageTemplate := pageTemplate v;
     releaseNotesFile := releaseNotesFile v;
     substitutions := substitutions v |}.

Definition set_pageTemplate (x : string) (v : Options) : Options :=
  {| releaseType := releaseType v;
     assetFiles := assetFiles v;
     tag := tag v;
     name := name v;
     owner := owner v;
     repo := repo v;
     noMock := noMock v;
     draft := draft v;
     updateIfReleaseExists := updateIfReleaseExists v;
     pageTemplate := x;
     releaseNotesFile := releaseNotesFile v;
     substitutions := substitutions v |}.

Definition set_releaseNotesFile (x : string) (v : Options) : Options :=
  {| releaseType := releaseType v;
     assetFiles := assetFiles v;
     tag := tag v;
     name := name v;
     owner := owner v;
     repo := repo v;
     noMock := noMock v;
     draft := draft v;
     updateIfReleaseExists := updateIfReleaseExists v;
     pageTemplate := pageTemplate v;
     releaseNotesFile := x;
     substitutions := substitutions v |}.

Definition set_substitutions (x : option (gmap string string)) (v : Options) : Options :=
  {| releaseType := releaseType v;
     assetFiles := assetFiles v;
     tag := tag v;
     name := name v;
     owner := owner v;
     repo := repo v;
     noMock := noMock v;
     draft := draft v;
     updateIfReleaseExists := updateIfReleaseExists v;
     pageTemplate := pageTemplate v;
     releaseNotesFile := releaseNotesFile v;
     substitutions := x |}.

(** A [*Options]: an address in the heap; an address the heap does not
    hold (such as [nil]) cannot be dereferenced. *)
Definition loc := positive.

(** What the program does to the outside world, in order. *)
Inductive Event : Type :=
| EvReadFile (path : string)
| EvInfo (msg : string).

(** The program state: the allocated [Options] objects, the file system
    as [os.ReadFile] sees it ([(data, err)] for each path), and the
    events so far. *)
Record State : Type := mkState {
  heap : gmap loc Options;
  fs : string → list Byte.byte * option error;
  trace : list Event
}.

Definition set_heap (h : gmap loc Options) (s : State) : State :=
  {| heap := h; fs := fs s; trace := trace s |}.

Definition emit (e : Event) (s : State) : State :=
  {| heap := heap s; fs := fs s; trace := trace s ++ [e] |}.

(** ** Computations: state passing, [None] is a run-time panic *)
Definition M (A : Type) : Type := State → option (A * State).

Global Instance M_ret : MRet M := λ A (x : A) s, Some (x, s).

Global Instance M_bind : MBind M := λ A B (f : A → M B) (c : M A) s,
  match c s with
  | Some (x, s') => f x s'
  | None => None
  end.

Definition panic {A : Type} : M A := λ _, None.

(** [*o]: read the object at [o]. *)
Definition load (o : loc) : M Options := λ s,
  match heap s !! o with
  | Some v => Some (v, s)
  | None => None
  end.

(** [*o = v]. *)
Definition store (o : loc) (v : Options) : M unit := λ s,
  match heap s !! o with
  | Some _ => Some (tt, set_heap (<[o := v]> (heap s)) s)
  | None => None
  end.

(** [o.f = x], given the assignment [set_f x]. *)
Definition assign (o : loc) (f : Options → Options) : M unit :=
  v ← load o; store o (f v).

(** [&Options{...}]: a fresh address holding [v]. *)
Definition alloc (v : Options) : M loc := λ s,
  let o := fresh (dom (heap s)) in
  Some (o, set_heap (<[o := v]> (heap s)) s).

Module os.
Definition ReadFile (name : string) : M (list Byte.byte * option error) := λ s,
  Some (fs s name, emit (EvReadFile name) s).
End os.

Module logrus.
Definition Infof (format arg : string) : M unit := λ s,
  Some (tt, emit (EvInfo (fmt.Sprintf format "%s" arg)) s).
End logrus.

(** ** The source file *)

Definition NewOptions : M loc :=
  alloc {| releaseType := ""; assetFiles := None; tag := ""; name := "";
           owner := ""; repo := ""; noMock := false; draft := false;
           updateIfReleaseExists := false; pageTemplate := "";
           releaseNotesFile := ""; substitutions := None |}.

Definition WithReleaseType (o : loc) (releaseType : string) : M loc :=
  assign o (set_releaseType releaseType);; mret o.

Definition WithAssetFiles (o : loc) (assetFiles : option (list string)) : M loc :=
  assign o (set_assetFiles assetFiles);; mret o.

Definition WithTag (o : loc) (tag : string) : M loc :=
  assign o (set_tag tag);; mret o.

Definition WithName (o : loc) (name : string) : M loc :=
  assign o (set_name name);; mret o.

Definition WithOwner (o : loc) (owner : string) : M loc :=
  assign o (set_owner owner);; mret o.

Definition WithRepo (o : loc) (repo : string) : M loc :=
  assign o (set_repo repo);; mret o.

Definition WithNoMock (o : loc) (noMock : bool) : M loc :=
  assign o (set_noMock noMock);; mret o.

Definition WithDraft (o : loc) (draft : bool) : M loc :=
  assign o (set_draft draft);; mret o.

Definition WithUpdateIfReleaseExists (o : loc) (updateIfReleaseExists : bool) : M loc :=
  assign o (set_updateIfReleaseExists updateIfReleaseExists);; mret o.

Definition WithPageTemplate (o : loc) (pageTemplate : string) : M loc :=
  assign o (set_pageTemplate pageTemplate);; mret o.

Definition WithReleaseNotesFile (o : loc) (releaseNotesFile : string) : M loc :=
  assign o (set_releaseNotesFile releaseNotesFile);; mret o.

Definition WithSubstitutions (o : loc) (substitutions : option (gmap string string)) : M loc :=
  assign o (set_substitutions substitutions);; mret o.

Definition Validate (o : loc) : M (option error) :=
  v ← load o;
  if String.eqb (tag v) "" then
    mret (Some (errors.New "cannot update github page without a tag"))
  else
  v ← load o;
  if String.eqb (repo v) "" then
    mret (Some (errors.New "cannot update github page, repository not defined"))
  else
  v ← load o;
  if String.eqb (owner v) "" then
    mret (Some (errors.New "cannot update github page, github organization not defined"))
  else
  mret None.

(** [o.substitutions[k] = x]: an assignment to an entry of a [nil] map
    panics. *)
Definition substitutions_put (o : loc) (k x : string) : M unit :=
  v ← load o;
  match substitutions v with
  | Some m => store o (set_substitutions (Some (<[k := x]> m)) v)
  | None => panic
  end.

(** The [for _, sString := range subs] loop of [ParseSubstitutions]. *)
Fixpoint ParseSubstitutions_range `{Externals} (o : loc) (subs : list string)
  : M (option error) :=
  match subs with
  | [] => mret None
  | sString :: subs' =>
      let p := strings.SplitN sString ":" 2 in
      if negb (length p =? 2)%nat || String.eqb (p !!! 0%nat) "" then
        mret (Some (errors.New ("substitution value not well formed: " +:+ sString)))
      else
        substitutions_put o (p !!! 0%nat) (p !!! 1%nat);;
        ParseSubstitutions_range o subs'
  end.

Definition ParseSubstitutions `{Externals} (o : loc) (subs : list string)
  : M (option error) :=
  assign o (set_substitutions (Some ∅));;
  ParseSubstitutions_range o subs.

Definition SetRepository `{Externals} (o : loc) (repoSlug : string)
  : M (option error) :=
  let '(org, repo, err) := ParseRepoSlug repoSlug in
  match err with
  | Some err => mret (Some (fmt.Errorf "parsing repository slug: %w" err))
  | None =>
      assign o (set_owner org);;
      assign o (set_repo repo);;
      mret None
  end.

Definition ReadTemplate (o : loc) (templatePath : string) : M (option error) :=
  if String.eqb templatePath "" then
    assign o (set_pageTemplate "");;
    mret None
  else
    '(templateData, err) ← os.ReadFile templatePath;
    match err with
    | Some err => mret (Some (fmt.Errorf "reading page template text: %w" err))
    | None =>
        logrus.Infof "Using custom template from %s" templatePath;;
        assign o (set_pageTemplate (String.string_of_list_byte templateData));;
        mret None
    end.

(** ** Vocabulary of the statements *)

(** The state in which the object at [o] has become [v]. *)
Definition upd (o : loc) (v : Options) (s : State) : State :=
  set_heap (<[o := v]> (heap s)) s.

(** The fields of [Options] and the values they hold, to speak of "all
    other fields". *)
Inductive Field : Type :=
| FreleaseType | FassetFiles | Ftag | Fname | Fowner | Frepo | FnoMock
| Fdraft | FupdateIfReleaseExists | FpageTemplate | FreleaseNotesFile
| Fsubstitutions.

Inductive Value : Type :=
| VString (x : string)
| VBool (x : bool)
| VSlice (x : option (list string))
| VMap (x : option (gmap string string)).

Definition field (f : Field) (v : Options) : Value :=
  match f with
  | FreleaseType => VString (releaseType v)
  | FassetFiles => VSlice (assetFiles v)
  | Ftag => VString (tag v)
  | Fname => VString (name v)
  | Fowner => VString (owner v)
  | Frepo => VString (repo v)
  | FnoMock => VBool (noMock v)
  | Fdraft => VBool (draft v)
  | FupdateIfReleaseExists => VBool (updateIfReleaseExists v)
  | FpageTemplate => VString (pageTemplate v)
  | FreleaseNotesFile => VString (releaseNotesFile v)
  | Fsubstitutions => VMap (substitutions v)
  end.

(** [v'] differs from [v] at most in the fields listed in [fs]. *)
Definition only_changes (fs : list Field) (v v' : Options) : Prop :=
  ∀ f, f ∉ fs → field f v' = field f v.

(** The zero value of each field's type: the empty string, [false], the
    [nil] slice and the [nil] map. *)
Definition zero_value (f : Field) : Value :=
  match f with
  | FreleaseType | Ftag | Fname | Fowner | Frepo | FpageTemplate
  | FreleaseNotesFile => VString ""
  | FnoMock | Fdraft | FupdateIfReleaseExists => VBool false
  | FassetFiles => VSlice None
  | Fsubstitutions => VMap None
  end.

(** What a builder method does: for every argument [x], called on [o]
    it returns [o] itself, the field [f] of the object now holds [x] and
    no other field, object or part of the state has changed. *)
Definition assigns {A : Type} (method : loc → A → M loc) (f : Field)
    (inj : A → Value) (s : State) (o : loc) (v : Options) : Prop :=
  ∀ x, ∃ v', method o x s = Some (o, upd o v' s)
             ∧ field f v' = inj x ∧ only_changes [f] v v'.

(** The byte [c] occurs in [s]. *)
Fixpoint occurs (c : ascii) (s : string) : bool :=
  match s with
  | EmptyString => false
  | String a s' => Ascii.eqb a c || occurs c s'
  end.

(** A substitution as the caller writes it: key, colon, value. *)
Definition join (kv : string * string) : string :=
  kv.1 +:+ ":" +:+ kv.2.

(** A key is not empty and holds no colon, so that the colon written
    after it is the first of the element. *)
Definition is_key (k : string) : Prop :=
  k ≠ "" ∧ occurs ":" k = false.

(** An element with no colon, or with nothing before its first colon. *)
Definition malformed (s : string) : Prop :=
  occurs ":" s = false ∨ ∃ x, s = ":" +:+ x.

(** The mapping after the entries [kvs] are stored into [m] in order. *)
Definition put_all (m : gmap string string) (kvs : list (string * string))
  : gmap string string :=
  foldl (λ m kv, <[kv.1 := kv.2]> m) m kvs.

(** ** Calls of the builder methods, as data *)

(** One call of a builder method, with its argument. *)
Inductive Setting : Type :=
| SetReleaseType (x : string)
| SetAssetFiles (x : option (list string))
| SetTag (x : string)
| SetName (x : string)
| SetOwner (x : string)
| SetRepo (x : string)
| SetNoMock (x : bool)
| SetDraft (x : bool)
| SetUpdateIfReleaseExists (x : bool)
| SetPageTemplate (x : string)
| SetReleaseNotesFile (x : string)
| SetSubstitutions (x : option (gmap string string)).

(** The method a [Setting] calls on the receiver [o]. *)
Definition apply_setting (o : loc) (a : Setting) : M loc :=
  match a with
  | SetReleaseType x => WithReleaseType o x
  | SetAssetFiles x => WithAssetFiles o x
  | SetTag x => WithTag o x
  | SetName x => WithName o x
  | SetOwner x => WithOwner o x
  | SetRepo x => WithRepo o x
  | SetNoMock x => WithNoMock o x
  | SetDraft x => WithDraft o x
  | SetUpdateIfReleaseExists x => WithUpdateIfReleaseExists o x
  | SetPageTemplate x => WithPageTemplate o x
  | SetReleaseNotesFile x => WithReleaseNotesFile o x
  | SetSubstitutions x => WithSubstitutions o x
  end.

(** The field the method is named after. *)
Definition setting_field (a : Setting) : Field :=
  match a with
  | SetReleaseType _ => FreleaseType
  | SetAssetFiles _ => FassetFiles
  | SetTag _ => Ftag
  | SetName _ => Fname
  | SetOwner _ => Fowner
  | SetRepo _ => Frepo
  | SetNoMock _ => FnoMock
  | SetDraft _ => Fdraft
  | SetUpdateIfReleaseExists _ => FupdateIfReleaseExists
  | SetPageTemplate _ => FpageTemplate
  | SetReleaseNotesFile _ => FreleaseNotesFile
  | SetSubstitutions _ => Fsubstitutions
  end.

(** The assignment the method makes. *)
Definition setting_update (a : Setting) : Options → Options :=
  match a with
  | SetReleaseType x => set_releaseType x
  | SetAssetFiles x => set_assetFiles x
  | SetTag x => set_tag x
  | SetName x => set_name x
  | SetOwner x => set_owner x
  | SetRepo x => set_repo x
  | SetNoMock x => set_noMock x
  | SetDraft x => set_draft x
  | SetUpdateIfReleaseExists x => set_updateIfReleaseExists x
  | SetPageTemplate x => set_pageTemplate x
  | SetReleaseNotesFile x => set_releaseNotesFile x
  | SetSubstitutions x => set_substitutions x
  end.

(** The three errors of [Validate]. *)
Definition missing_tag : error :=
  errors.New "cannot update github page without a tag".

Definition missing_repo : error :=
  errors.New "cannot update github page, repository not defined".

Definition missing_org : error :=
  errors.New "cannot update github page, github organization not defined".

(** The result of a computation, its final state left out. *)
Definition result {A : Type} (c : M A) (s : State) : option A :=
  fst <$> c s.

(** ** A concrete world for the examples *)

(** A stand-in for the slug parser, as a test of the file would inject:
    the text before the first slash and the text after it, or an error
    when there is no slash. *)
Definition slash_parser (repoSlug : string) : string * string * option error :=
  let i := strings.Index repoSlug "/" in
  if i <? 0 then ("", "", Some (errors.New "string is not a well formed org/repo slug"))
  else (strings.slice_to repoSlug i, strings.slice_from repoSlug (i + 1), None).

(** The two helpers of [genSplit] are not reached with the separator
    [":"] and the count [2]. *)
Definition sample_externals : Externals :=
  {| explode := λ _ _, []; Count := λ _ _, 0; ParseRepoSlug := slash_parser |}.

(** One readable file, every other path missing. *)
Definition sample_fs (path : string) : list Byte.byte * option error :=
  if String.eqb path "/tmp/page.tmpl"
  then (String.list_byte_of_string "# Release notes", None)
  else ([], Some (errors.New ("open " +:+ path +:+ ": no such file or directory"))).

Definition sample_options : Options :=
  {| releaseType := "official"; assetFiles := Some ["a.tar.gz"];
     tag := "v1.0.0"; name := ""; owner := "kubernetes"; repo := "release";
     noMock := false; draft := true; updateIfReleaseExists := false;
     pageTemplate := "old template"; releaseNotesFile := "";
     substitutions := Some {[ "OLD" := "x" ]} |}.

Definition sample_loc : loc := 1%positive.

Definition sample_state : State :=
  {| heap := {[ sample_loc := sample_options ]}; fs := sample_fs; trace := [] |}.

(** ** Proof steps that recur *)

(** One way out of [Validate]: the result is read off, and each
    equivalence follows from the tests passed so far. *)
Ltac validate_case :=
  eexists; split; [reflexivity|];
  unfold errors.New; intuition (congruence || discriminate).

(** The fields outside the listed ones are untouched: by cases on the
    field. *)
Ltac frame_fields :=
  let f := fresh "f" in let Hf := fresh "Hf" in
  intros f Hf; destruct f; try reflexivity; exfalso; apply Hf; set_solver.

(** A builder method, given its run [Hrun] on the receiver. *)
Ltac builder_case Hrun :=
  let x := fresh "x" in
  intros x; eexists; split; [exact (Hrun _)|];
  split; [reflexivity|frame_fields].

(** ** Strings *)

Lemma app_String a k r : String a k +:+ r = String a (k +:+ r).
Proof. reflexivity. Qed.

Lemma len_nonneg s : 0 ≤ strings.len s.
Proof. unfold strings.len. lia. Qed.

Lemma len_String a s : strings.len (String a s) = strings.len s + 1.
Proof. unfold strings.len. cbn [String.length]. lia. Qed.

Lemma length_app k r :
  String.length (k +:+ r) = (String.length k + String.length r)%nat.
Proof.
  induction k as [|a k IH]; [done|].
  rewrite app_String. cbn [String.length]. rewrite IH. done.
Qed.

Lemma substring_whole s : String.substring 0 (String.length s) s = s.
Proof. induction s as [|a s IH]; [done|]. cbn. by rewrite IH. Qed.

Lemma substring_app_l k r : String.substring 0 (String.length k) (k +:+ r) = k.
Proof.
  induction k as [|a k IH]; [by destruct r|].
  rewrite app_String. cbn. by rewrite IH.
Qed.

Lemma substring_app_r k r n :
  String.substring (String.length k) n (k +:+ r) = String.substring 0 n r.
Proof. induction k as [|a k IH]; [done|]. rewrite app_String. cbn. apply IH. Qed.

Lemma prefix_colon_String a s :
  String.prefix ":" (String a s) = Ascii.eqb a ":".
Proof.
  cbn [String.prefix]. destruct (ascii_dec ":" a) as [<-|Hne]; [by destruct s|].
  symmetry. apply Ascii.eqb_neq. congruence.
Qed.

Lemma Index_no_colon s : occurs ":" s = false → strings.Index s ":" = -1.
Proof.
  induction s as [|a s IH]; [done|].
  cbn [occurs]. intros [Ha Hs]%orb_false_iff.
  cbn [strings.Index]. rewrite prefix_colon_String, Ha, (IH Hs). done.
Qed.

Lemma Index_first_colon k x :
  occurs ":" k = false → strings.Index (k +:+ ":" +:+ x) ":" = strings.len k.
Proof.
  induction k as [|a k IH].
  { intros _. change (strings.Index (String ":" x) ":" = 0).
    cbn [strings.Index]. by rewrite prefix_colon_String. }
  cbn [occurs]. intros [Ha Hk]%orb_false_iff.
  rewrite app_String. cbn [strings.Index].
  rewrite prefix_colon_String, Ha, (IH Hk), len_String.
  pose proof (len_nonneg k). by destruct (Z.ltb_spec (strings.len k) 0); [lia|].
Qed.

Lemma slice_to_key k r : strings.slice_to (k +:+ r) (strings.len k + 0) = k.
Proof.
  unfold strings.slice_to, strings.len.
  rewrite Z.add_0_r, Nat2Z.id. apply substring_app_l.
Qed.

Lemma slice_from_value k x :
  strings.slice_from (k +:+ ":" +:+ x) (strings.len k + strings.len ":") = x.
Proof.
  unfold strings.slice_from, strings.len.
  rewrite <- Nat2Z.inj_add, Nat2Z.id, !length_app. cbn [String.length].
  replace (String.length k + 1)%nat with (String.length (k +:+ ":"))
    by (rewrite length_app; done).
  replace (k +:+ ":" +:+ x) with ((k +:+ ":") +:+ x).
  2:{ clear. induction k as [|a k IH]; [done|]. rewrite !app_String. by rewrite IH. }
  rewrite substring_app_r.
  replace (_ + _ - _)%nat with (String.length x) by (rewrite length_app; cbn; lia).
  apply substring_whole.
Qed.

Section SplitN.
Context `{Externals}.

(** An element with no colon is returned whole: one part. *)
Lemma SplitN_no_colon s :
  occurs ":" s = false → strings.SplitN s ":" 2 = [s].
Proof.
  intros Hs. unfold strings.SplitN, strings.genSplit. cbn [Z.eqb String.eqb Z.ltb Z.compare].
  cbv zeta. destruct (_ >? _); destruct (Z.to_nat _); cbn [strings.genSplit_loop];
    rewrite ?(Index_no_colon _ Hs); done.
Qed.

(** An element is cut at its first colon: two parts. *)
Lemma SplitN_first_colon k x :
  occurs ":" k = false → strings.SplitN (k +:+ ":" +:+ x) ":" 2 = [k; x].
Proof.
  intros Hk. unfold strings.SplitN, strings.genSplit. cbn [Z.eqb String.eqb Z.ltb Z.compare].
  cbv zeta.
  assert (Hlen : 1 ≤ strings.len (k +:+ ":" +:+ x)).
  { unfold strings.len. rewrite !length_app. cbn [String.length]. lia. }
  destruct (Z.gtb_spec 2 (strings.len (k +:+ ":" +:+ x) + 1)); [lia|].
  change (Z.to_nat (2 - 1)) with 1%nat. cbn [strings.genSplit_loop].
  rewrite (Index_first_colon _ _ Hk).
  pose proof (len_nonneg k). destruct (Z.ltb_spec (strings.len k) 0); [lia|].
  by rewrite slice_to_key, slice_from_value.
Qed.
End SplitN.

(** ** The state and the monad *)

Lemma bind_Some {A B} (c : M A) (f : A → M B) s x s' :
  c s = Some (x, s') → (c ≫= f) s = f x s'.
Proof. intros Hc. unfold mbind, M_bind. by rewrite Hc. Qed.

Lemma heap_upd o v s : heap (upd o v s) !! o = Some v.
Proof. apply lookup_insert_eq. Qed.

Lemma upd_upd o v v' s : upd o v' (upd o v s) = upd o v' s.
Proof. unfold upd, set_heap. cbn. by rewrite insert_insert_eq. Qed.

Lemma upd_id o v s : heap s !! o = Some v → upd o v s = s.
Proof. intros Hv. destruct s. unfold upd, set_heap. cbn in *. by rewrite insert_id. Qed.

Lemma load_Some o v s : heap s !! o = Some v → load o s = Some (v, s).
Proof. intros Hv. unfold load. by rewrite Hv. Qed.

Lemma store_Some o v v' s :
  heap s !! o = Some v → store o v' s = Some (tt, upd o v' s).
Proof. intros Hv. unfold store. by rewrite Hv. Qed.

Lemma assign_Some o f v s :
  heap s !! o = Some v → assign o f s = Some (tt, upd o (f v) s).
Proof.
  intros Hv. unfold assign.
  rewrite (bind_Some _ _ _ _ _ (load_Some _ _ _ Hv)). by apply store_Some with v.
Qed.

Lemma substitutions_put_Some o k x v m s :
  heap s !! o = Some v → substitutions v = Some m →
  substitutions_put o k x s
  = Some (tt, upd o (set_substitutions (Some (<[k := x]> m)) v) s).
Proof.
  intros Hv Hm. unfold substitutions_put.
  rewrite (bind_Some _ _ _ _ _ (load_Some _ _ _ Hv)), Hm. by apply store_Some with v.
Qed.

Lemma set_substitutions_id v m :
  substitutions v = Some m → set_substitutions (Some m) v = v.
Proof. intros <-. by destruct v. Qed.

(** ** Format strings of the file *)

Lemma app_empty_r s : s +:+ "" = s.
Proof. induction s as [|a s IH]; [done|]. by rewrite app_String, IH. Qed.

Lemma Sprintf_slug arg :
  fmt.Sprintf "parsing repository slug: %w" "%w" arg
  = "parsing repository slug: " +:+ arg.
Proof.
  unfold fmt.Sprintf.
  change (strings.Index "parsing repository slug: %w" "%w") with 25.
  cbv beta zeta iota delta [Z.ltb Z.compare].
  change (strings.slice_to _ 25) with "parsing repository slug: ".
  change (strings.slice_from _ (25 + 2)) with "".
  by rewrite app_empty_r.
Qed.

Lemma Sprintf_template arg :
  fmt.Sprintf "reading page template text: %w" "%w" arg
  = "reading page template text: " +:+ arg.
Proof.
  unfold fmt.Sprintf.
  change (strings.Index "reading page template text: %w" "%w") with 28.
  cbv beta zeta iota delta [Z.ltb Z.compare].
  change (strings.slice_to _ 28) with "reading page template text: ".
  change (strings.slice_from _ (28 + 2)) with "".
  by rewrite app_empty_r.
Qed.

Lemma Sprintf_info arg :
  fmt.Sprintf "Using custom template from %s" "%s" arg
  = "Using custom template from " +:+ arg.
Proof.
  unfold fmt.Sprintf.
  change (strings.Index "Using custom template from %s" "%s") with 27.
  cbv beta zeta iota delta [Z.ltb Z.compare].
  change (strings.slice_to _ 27) with "Using custom template from ".
  change (strings.slice_from _ (27 + 2)) with "".
  by rewrite app_empty_r.
Qed.

(** ** [Validate] *)

Lemma Validate_pure (s : State) (o : loc) (v : Options) :
  heap s !! o = Some v → ∃ r, Validate o s = Some (r, s).
Proof.
  intros Hv. unfold Validate.
  rewrite (bind_Some _ _ _ _ _ (load_Some _ _ _ Hv)).
  destruct (String.eqb (tag v) ""); [by eexists|].
  rewrite (bind_Some _ _ _ _ _ (load_Some _ _ _ Hv)).
  destruct (String.eqb (repo v) ""); [by eexists|].
  rewrite (bind_Some _ _ _ _ _ (load_Some _ _ _ Hv)).
  destruct (String.eqb (owner v) ""); by eexists.
Qed.

(** C1. [Validate] checks tag, then repo, then owner: it fails with the
    missing-tag error exactly when tag is empty, otherwise with the
    missing-repository error exactly when repo is empty, otherwise with
    the missing-organization error exactly when owner is empty, and
    succeeds exactly when the three are non-empty. *)
Theorem Validate_priority (s : State) (o : loc) (v : Options)
    (Hv : heap s !! o = Some v) :
  ∃ r, Validate o s = Some (r, s)
    ∧ (r = Some (errors.New "cannot update github page without a tag")
       ↔ tag v = "")
    ∧ (r = Some (errors.New "cannot update github page, repository not defined")
       ↔ tag v ≠ "" ∧ repo v = "")
    ∧ (r = Some (errors.New
                   "cannot update github page, github organization not defined")
       ↔ tag v ≠ "" ∧ repo v ≠ "" ∧ owner v = "")
    ∧ (r = None ↔ tag v ≠ "" ∧ repo v ≠ "" ∧ owner v ≠ "").
Proof.
  unfold Validate.
  rewrite (bind_Some _ _ _ _ _ (load_Some _ _ _ Hv)).
  destruct (String.eqb_spec (tag v) "") as [Ht|Ht].
  { validate_case. }
  rewrite (bind_Some _ _ _ _ _ (load_Some _ _ _ Hv)).
  destruct (String.eqb_spec (repo v) "") as [Hr|Hr].
  { validate_case. }
  rewrite (bind_Some _ _ _ _ _ (load_Some _ _ _ Hv)).
  destruct (String.eqb_spec (owner v) "") as [Ho|Ho].
  { validate_case. }
  validate_case.
Qed.

(** ** The constructor and the builder methods *)

Lemma builder_Some (o : loc) (f : Options → Options) (v : Options) (s : State) :
  heap s !! o = Some v → (assign o f;; mret o) s = Some (o, upd o (f v) s).
Proof. intros Hv. by rewrite (bind_Some _ _ _ _ _ (assign_Some _ f _ _ Hv)). Qed.

Lemma NewOptions_fresh (s : State) :
  ∃ o z, NewOptions s = Some (o, upd o z s) ∧ heap s !! o = None
         ∧ ∀ f, field f z = zero_value f.
Proof.
  eexists _, _. split; [reflexivity|]. split.
  - apply not_elem_of_dom, is_fresh.
  - by intros [].
Qed.

(** C7. [NewOptions] returns a new object whose fields all hold their
    zero value; each [With...] method stores its argument in its field
    whatever the argument is, changes nothing else and returns its
    receiver; and [NewOptions().WithTag("v1.0.0").WithOwner("o").WithRepo("r")]
    has those three fields set and the zero value in every other one. *)
Theorem builder_chain (s : State) (o : loc) (v : Options)
    (Hv : heap s !! o = Some v) :
  (∃ o' z, NewOptions s = Some (o', upd o' z s) ∧ heap s !! o' = None
           ∧ ∀ f, field f z = zero_value f)
  ∧ assigns WithReleaseType FreleaseType VString s o v
  ∧ assigns WithAssetFiles FassetFiles VSlice s o v
  ∧ assigns WithTag Ftag VString s o v
  ∧ assigns WithName Fname VString s o v
  ∧ assigns WithOwner Fowner VString s o v
  ∧ assigns WithRepo Frepo VString s o v
  ∧ assigns WithNoMock FnoMock VBool s o v
  ∧ assigns WithDraft Fdraft VBool s o v
  ∧ assigns WithUpdateIfReleaseExists FupdateIfReleaseExists VBool s o v
  ∧ assigns WithPageTemplate FpageTemplate VString s o v
  ∧ assigns WithReleaseNotesFile FreleaseNotesFile VString s o v
  ∧ assigns WithSubstitutions Fsubstitutions VMap s o v
  ∧ (∃ o' z,
        (o1 ← NewOptions; o2 ← WithTag o1 "v1.0.0"; o3 ← WithOwner o2 "o";
         WithRepo o3 "r") s = Some (o', upd o' z s)
        ∧ heap s !! o' = None
        ∧ tag z = "v1.0.0" ∧ owner z = "o" ∧ repo z = "r"
        ∧ ∀ f, f ∉ [Ftag; Fowner; Frepo] → field f z = zero_value f).
Proof.
  split; [apply NewOptions_fresh|].
  repeat (split; [builder_case (λ f, builder_Some o f v s Hv)|]).
  destruct (NewOptions_fresh s) as (o' & z & Hnew & Hfresh & Hz).
  eexists o', _. split; [|split; [exact Hfresh|]].
  - rewrite (bind_Some _ _ _ _ _ Hnew). unfold WithTag, WithOwner, WithRepo.
    rewrite (bind_Some _ _ _ _ _ (builder_Some _ _ _ _ (heap_upd o' z s))), upd_upd.
    rewrite (bind_Some _ _ _ _ _ (builder_Some _ _ _ _ (heap_upd o' _ s))), upd_upd.
    rewrite (builder_Some _ _ _ _ (heap_upd o' _ s)), upd_upd. reflexivity.
  - repeat (split; [reflexivity|]).
    intros f Hf. rewrite <- Hz.
    destruct f; try reflexivity; exfalso; apply Hf; set_solver.
Qed.

(** ** [ReadTemplate] *)

Lemma ReadTemplate_no_path (s : State) (o : loc) (v : Options) :
  heap s !! o = Some v →
  ReadTemplate o "" s = Some (None, upd o (set_pageTemplate "" v) s).
Proof.
  intros Hv. unfold ReadTemplate. cbn [String.eqb].
  by rewrite (bind_Some _ _ _ _ _ (assign_Some _ _ _ _ Hv)).
Qed.

Lemma ReadTemplate_read (s : State) (o : loc) (v : Options) (path : string) data :
  heap s !! o = Some v → path ≠ "" → fs s path = (data, None) →
  ReadTemplate o path s
  = Some (None,
          {| heap := <[o := set_pageTemplate (String.string_of_list_byte data) v]>
                       (heap s);
             fs := fs s;
             trace := trace s ++ [EvReadFile path;
                                  EvInfo ("Using custom template from " +:+ path)] |}).
Proof.
  intros Hv Hpath%String.eqb_neq Hfs.
  unfold ReadTemplate. rewrite Hpath.
  unfold os.ReadFile, logrus.Infof, mbind at 1, M_bind at 1. rewrite Hfs.
  unfold mbind at 1, M_bind at 1.
  assert (Hv' : heap (emit (EvInfo (fmt.Sprintf "Using custom template from %s" "%s" path))
                        (emit (EvReadFile path) s)) !! o = Some v) by exact Hv.
  rewrite (bind_Some _ _ _ _ _ (assign_Some _ _ _ _ Hv')).
  rewrite Sprintf_info. unfold mret, M_ret, upd, set_heap, emit. cbn.
  by rewrite <- app_assoc.
Qed.

Lemma ReadTemplate_read_error (s : State) (o : loc) (path : string) data cause :
  path ≠ "" → fs s path = (data, Some cause) →
  ReadTemplate o path s
  = Some (Some (fmt.Errorf "reading page template text: %w" cause),
          emit (EvReadFile path) s).
Proof.
  intros Hpath%String.eqb_neq Hfs. unfold ReadTemplate. rewrite Hpath.
  unfold os.ReadFile, mbind, M_bind. by rewrite Hfs.
Qed.

(** C6. With the empty path [ReadTemplate] sets pageTemplate to the
    empty string and succeeds, whatever pageTemplate held; nothing else
    changes, and the trace gains no event: no file is read. *)
Theorem ReadTemplate_empty_path (s : State) (o : loc) (v : Options)
    (Hv : heap s !! o = Some v) :
  ReadTemplate o "" s = Some (None, upd o (set_pageTemplate "" v) s)
  ∧ pageTemplate (set_pageTemplate "" v) = ""
  ∧ only_changes [FpageTemplate] v (set_pageTemplate "" v)
  ∧ trace (upd o (set_pageTemplate "" v) s) = trace s.
Proof.
  split; [by apply ReadTemplate_no_path|].
  split; [reflexivity|split; [frame_fields|reflexivity]].
Qed.

(** C5. With a non-empty path, a successful read stores the whole
    content of the file as pageTemplate (after one read and one log
    line) and succeeds; a failed read returns the error
    "reading page template text: <cause>" wrapping the cause, and leaves
    every object, pageTemplate included, as it was. *)
Theorem ReadTemplate_file (s : State) (o : loc) (v : Options) (path : string)
    (Hv : heap s !! o = Some v) (Hpath : path ≠ "") :
  (∀ data, fs s path = (data, None) →
     ReadTemplate o path s
     = Some (None,
             {| heap := <[o := set_pageTemplate (String.string_of_list_byte data) v]>
                          (heap s);
                fs := fs s;
                trace := trace s ++ [EvReadFile path;
                                     EvInfo ("Using custom template from " +:+ path)] |})
     ∧ pageTemplate (set_pageTemplate (String.string_of_list_byte data) v)
       = String.string_of_list_byte data
     ∧ only_changes [FpageTemplate] v
         (set_pageTemplate (String.string_of_list_byte data) v))
  ∧ (∀ data cause, fs s path = (data, Some cause) →
     ∃ e, ReadTemplate o path s = Some (Some e, emit (EvReadFile path) s)
          ∧ Error e = "reading page template text: " +:+ Error cause
          ∧ Unwrap e = Some cause
          ∧ heap (emit (EvReadFile path) s) = heap s).
Proof.
  split.
  - intros data Hfs. split; [by apply ReadTemplate_read|].
    split; [reflexivity|frame_fields].
  - intros data cause Hfs. eexists.
    split; [by apply ReadTemplate_read_error with data|].
    split; [cbn; apply Sprintf_template|done].
Qed.

(** ** [SetRepository] *)

Section SetRepository.
Context `{Externals}.

Lemma SetRepository_parse_error (s : State) (o : loc) repoSlug org rp cause :
  ParseRepoSlug repoSlug = (org, rp, Some cause) →
  SetRepository o repoSlug s
  = Some (Some (fmt.Errorf "parsing repository slug: %w" cause), s).
Proof. intros Hparse. unfold SetRepository. by rewrite Hparse. Qed.

Lemma SetRepository_parsed (s : State) (o : loc) (v : Options) repoSlug org rp :
  heap s !! o = Some v → ParseRepoSlug repoSlug = (org, rp, None) →
  SetRepository o repoSlug s
  = Some (None, upd o (set_repo rp (set_owner org v)) s).
Proof.
  intros Hv Hparse. unfold SetRepository. rewrite Hparse.
  rewrite (bind_Some _ _ _ _ _ (assign_Some _ _ _ _ Hv)).
  rewrite (bind_Some _ _ _ _ _ (assign_Some _ _ _ _ (heap_upd o _ s))).
  by rewrite upd_upd.
Qed.

(** C4. When the slug parser fails, [SetRepository] returns the error
    "parsing repository slug: <cause>" wrapping the cause and the
    state is exactly what it was; when the parser succeeds, owner and
    repo hold the parsed organisation and repository, nothing else has
    changed, and the call succeeds. *)
Theorem SetRepository_atomic (s : State) (o : loc) (v : Options)
    (repoSlug : string) (Hv : heap s !! o = Some v) :
  (∀ org rp cause, ParseRepoSlug repoSlug = (org, rp, Some cause) →
     ∃ e, SetRepository o repoSlug s = Some (Some e, s)
          ∧ Error e = "parsing repository slug: " +:+ Error cause
          ∧ Unwrap e = Some cause)
  ∧ (∀ org rp, ParseRepoSlug repoSlug = (org, rp, None) →
     ∃ v', SetRepository o repoSlug s = Some (None, upd o v' s)
           ∧ owner v' = org ∧ repo v' = rp
           ∧ only_changes [Fowner; Frepo] v v').
Proof.
  split.
  - intros org rp cause Hparse. eexists.
    split; [by apply SetRepository_parse_error with org rp|].
    split; [cbn; apply Sprintf_slug|done].
  - intros org rp Hparse. exists (set_repo rp (set_owner org v)).
    split; [by apply SetRepository_parsed|].
    split; [reflexivity|split; [reflexivity|frame_fields]].
Qed.
End SetRepository.

(** ** [ParseSubstitutions] *)

Lemma occurs_join k x : occurs ":" (k +:+ ":" +:+ x) = true.
Proof.
  induction k as [|a k IH]; [done|].
  rewrite app_String. cbn [occurs]. rewrite IH. apply orb_true_r.
Qed.

(** An element made of a key, a colon and a value is not malformed. *)
Lemma join_not_malformed kv : is_key kv.1 → ¬ malformed (join kv).
Proof.
  destruct kv as [k x]. unfold join. cbn [fst snd]. intros [Hne Hk] [Hno|[y Hy]].
  - by rewrite occurs_join in Hno.
  - destruct k as [|a k]; [done|].
    rewrite app_String in Hy. injection Hy as -> _. discriminate Hk.
Qed.

(** Every string is malformed or is a key, a colon and a value. *)
Lemma malformed_or_join s :
  malformed s ∨ ∃ kv, s = join kv ∧ is_key kv.1.
Proof.
  induction s as [|a s IH]; [by left; left|].
  destruct (Ascii.eqb_spec a ":") as [->|Ha]; [left; right; by exists s|].
  assert (Ha' : Ascii.eqb a ":" = false) by by apply Ascii.eqb_neq.
  destruct IH as [[Hno|[x ->]]|[[k x] [-> [Hne Hk]]]].
  - left; left. cbn [occurs]. by rewrite Ha', Hno.
  - right. exists (String a "", x). split; [done|].
    split; [done|]. cbn [fst occurs]. by rewrite Ha'.
  - right. exists (String a k, x). split; [done|].
    split; [done|]. cbn [fst occurs] in *. by rewrite Ha', Hk.
Qed.

(** A list holds a malformed element, with only well-formed ones before
    it, or is made of well-formed elements. *)
Lemma first_malformed subs :
  (∃ kvs, subs = map join kvs ∧ Forall (λ kv, is_key kv.1) kvs)
  ∨ (∃ kvs bad rest, subs = map join kvs ++ bad :: rest
       ∧ Forall (λ kv, is_key kv.1) kvs ∧ malformed bad).
Proof.
  induction subs as [|x subs IH]; [left; by exists []|].
  destruct (malformed_or_join x) as [Hbad|[kv [-> Hkv]]].
  { right. by exists [], x, subs. }
  destruct IH as [[kvs [-> Hkvs]]|(kvs & bad & rest & -> & Hkvs & Hbad)].
  - left. exists (kv :: kvs). split; [done|by constructor].
  - right. exists (kv :: kvs), bad, rest. split; [done|]. split; [by constructor|done].
Qed.

Lemma put_all_lookup_notin (kvs : list (string * string)) :
  ∀ m k, k ∉ kvs.*1 → put_all m kvs !! k = m !! k.
Proof.
  induction kvs as [|[k' x'] kvs IH]; [done|].
  intros m k [Hne Hk]%not_elem_of_cons. cbn [put_all foldl fst snd] in *.
  rewrite (IH _ _ Hk). by apply lookup_insert_ne.
Qed.

(** The last entry written for a key is the one the mapping holds. *)
Lemma put_all_last m kvs1 k x kvs2 :
  k ∉ kvs2.*1 → put_all m (kvs1 ++ (k, x) :: kvs2) !! k = Some x.
Proof.
  intros Hk. unfold put_all. rewrite foldl_app. cbn [foldl fst snd].
  fold (put_all (<[k:=x]> (foldl (λ m kv, <[kv.1:=kv.2]> m) m kvs1)) kvs2).
  rewrite (put_all_lookup_notin _ _ _ Hk). apply lookup_insert_eq.
Qed.

Section ParseSubstitutions.
Context `{Externals}.

(** One turn of the loop on a well-formed element. *)
Lemma range_key o k x subs s v m :
  heap s !! o = Some v → substitutions v = Some m → is_key k →
  ParseSubstitutions_range o (join (k, x) :: subs) s
  = ParseSubstitutions_range o subs
      (upd o (set_substitutions (Some (<[k := x]> m)) v) s).
Proof.
  intros Hv Hm [Hne Hk]. cbn [ParseSubstitutions_range]. unfold join. cbn [fst snd].
  rewrite (SplitN_first_colon _ _ Hk). cbn [length Nat.eqb negb orb].
  change ([k; x] !!! 0%nat) with k. change ([k; x] !!! 1%nat) with x.
  apply String.eqb_neq in Hne. rewrite Hne.
  by rewrite (bind_Some _ _ _ _ _ (substitutions_put_Some _ _ _ _ _ _ Hv Hm)).
Qed.

(** The loop stops at a malformed element and touches nothing. *)
Lemma range_malformed o bad subs s :
  malformed bad →
  ParseSubstitutions_range o (bad :: subs) s
  = Some (Some (errors.New ("substitution value not well formed: " +:+ bad)), s).
Proof.
  intros [Hno|[x ->]]; cbn [ParseSubstitutions_range].
  - by rewrite (SplitN_no_colon _ Hno).
  - change (":" +:+ x) with ("" +:+ ":" +:+ x) at 1 2 3.
    by rewrite (SplitN_first_colon "" x eq_refl).
Qed.

(** The loop over well-formed elements stores them in order. *)
Lemma range_keys o kvs rest :
  ∀ s v m, heap s !! o = Some v → substitutions v = Some m →
    Forall (λ kv, is_key kv.1) kvs →
    ParseSubstitutions_range o (map join kvs ++ rest) s
    = ParseSubstitutions_range o rest
        (upd o (set_substitutions (Some (put_all m kvs)) v) s).
Proof.
  induction kvs as [|[k x] kvs IH]; intros s v m Hv Hm Hkvs.
  - cbn [map app put_all foldl].
    by rewrite (set_substitutions_id _ _ Hm), (upd_id _ _ _ Hv).
  - apply Forall_cons in Hkvs as [Hk Hkvs]. cbn [map app].
    rewrite (range_key _ _ _ _ _ _ _ Hv Hm Hk).
    rewrite (IH _ (set_substitutions (Some (<[k := x]> m)) v) _
               (heap_upd _ _ _) eq_refl Hkvs), upd_upd.
    reflexivity.
Qed.

Lemma ParseSubstitutions_reset o subs s v :
  heap s !! o = Some v →
  ParseSubstitutions o subs s
  = ParseSubstitutions_range o subs (upd o (set_substitutions (Some ∅) v) s).
Proof.
  intros Hv. unfold ParseSubstitutions.
  by rewrite (bind_Some _ _ _ _ _ (assign_Some _ _ _ _ Hv)).
Qed.

Lemma ParseSubstitutions_keys o kvs s v :
  heap s !! o = Some v → Forall (λ kv, is_key kv.1) kvs →
  ParseSubstitutions o (map join kvs) s
  = Some (None, upd o (set_substitutions (Some (put_all ∅ kvs)) v) s).
Proof.
  intros Hv Hkvs. rewrite (ParseSubstitutions_reset _ _ _ _ Hv).
  rewrite <- (app_nil_r (map join kvs)).
  rewrite (range_keys _ _ _ _ (set_substitutions (Some ∅) v) _
             (heap_upd _ _ _) eq_refl Hkvs), upd_upd.
  reflexivity.
Qed.

Lemma ParseSubstitutions_first_malformed o kvs bad rest s v :
  heap s !! o = Some v → Forall (λ kv, is_key kv.1) kvs → malformed bad →
  ParseSubstitutions o (map join kvs ++ bad :: rest) s
  = Some (Some (errors.New ("substitution value not well formed: " +:+ bad)),
          upd o (set_substitutions (Some (put_all ∅ kvs)) v) s).
Proof.
  intros Hv Hkvs Hbad. rewrite (ParseSubstitutions_reset _ _ _ _ Hv).
  rewrite (range_keys _ _ _ _ (set_substitutions (Some ∅) v) _
             (heap_upd _ _ _) eq_refl Hkvs), upd_upd.
  by apply range_malformed.
Qed.

(** Whatever the list, the call returns; its result and the mapping it
    leaves depend on the list alone. *)
Lemma ParseSubstitutions_outcome subs :
  ∃ r m, ∀ o s v, heap s !! o = Some v →
    ParseSubstitutions o subs s
    = Some (r, upd o (set_substitutions (Some m) v) s).
Proof.
  destruct (first_malformed subs)
    as [[kvs [-> Hkvs]]|(kvs & bad & rest & -> & Hkvs & Hb)].
  - eexists _, _. intros o s v Hv. by apply ParseSubstitutions_keys.
  - eexists _, _. intros o s v Hv. by apply ParseSubstitutions_first_malformed.
Qed.

(** C2. On a list whose elements all have a colon after a non-empty
    key, [ParseSubstitutions] succeeds; the mapping it leaves is the
    empty one into which, in list order, each element's key (up to the
    first colon) and value (the rest, colons included) have been
    stored, so a key holds the value of its last element and a key
    that is in no element is absent; and ["KEY:VALUE"; "OTHER:A:B"]
    gives KEY to VALUE and OTHER to A:B. *)
Theorem ParseSubstitutions_accepts (s : State) (o : loc) (v : Options)
    (kvs : list (string * string))
    (Hv : heap s !! o = Some v)
    (Hkeys : Forall (λ kv, is_key kv.1) kvs) :
  ParseSubstitutions o (map join kvs) s
  = Some (None, upd o (set_substitutions (Some (put_all ∅ kvs)) v) s)
  ∧ (∀ kvs1 k x kvs2, kvs = kvs1 ++ (k, x) :: kvs2 → k ∉ kvs2.*1 →
       put_all ∅ kvs !! k = Some x)
  ∧ (∀ k, k ∉ kvs.*1 → put_all ∅ kvs !! k = None)
  ∧ ParseSubstitutions o ["KEY:VALUE"; "OTHER:A:B"] s
    = Some (None,
            upd o (set_substitutions
                     (Some {[ "KEY" := "VALUE"; "OTHER" := "A:B" ]}) v) s).
Proof.
  split; [by apply ParseSubstitutions_keys|].
  split; [intros kvs1 k x kvs2 -> Hk; by apply put_all_last|].
  split; [intros k Hk; by rewrite (put_all_lookup_notin _ _ _ Hk)|].
  change ["KEY:VALUE"; "OTHER:A:B"]
    with (map join [("KEY", "VALUE"); ("OTHER", "A:B")]).
  rewrite (ParseSubstitutions_keys _ _ _ _ Hv).
  - replace (put_all ∅ [("KEY", "VALUE"); ("OTHER", "A:B")])
      with ({[ "KEY" := "VALUE"; "OTHER" := "A:B" ]} : gmap string string);
      [done|].
    cbn [put_all foldl fst snd]. by rewrite insert_insert_ne, insert_empty.
  - repeat constructor; done.
Qed.

(** C3. On a list that holds a malformed element (no colon, or nothing
    before its first colon), [ParseSubstitutions] fails at the first
    one, with the error "substitution value not well formed: "
    followed by that element; the mapping it leaves is the empty one
    into which the elements before the malformed one have been
    stored, and nothing else has changed. *)
Theorem ParseSubstitutions_rejects (s : State) (o : loc) (v : Options)
    (subs : list string)
    (Hv : heap s !! o = Some v)
    (Hbad : Exists malformed subs) :
  ∃ kvs bad rest,
    subs = map join kvs ++ bad :: rest
    ∧ Forall (λ kv, is_key kv.1) kvs
    ∧ Forall (λ x, ¬ malformed x) (map join kvs)
    ∧ malformed bad
    ∧ ParseSubstitutions o subs s
      = Some (Some (errors.New ("substitution value not well formed: " +:+ bad)),
              upd o (set_substitutions (Some (put_all ∅ kvs)) v) s)
    ∧ Error (errors.New ("substitution value not well formed: " +:+ bad))
      = "substitution value not well formed: " +:+ bad.
Proof.
  assert (Hgood : ∀ kvs, Forall (λ kv, is_key kv.1) kvs →
                         Forall (λ x, ¬ malformed x) (map join kvs)).
  { intros kvs Hk. rewrite Forall_map.
    apply (Forall_impl _ _ _ Hk), join_not_malformed. }
  destruct (first_malformed subs)
    as [[kvs [-> Hkvs]]|(kvs & bad & rest & -> & Hkvs & Hb)].
  { apply Hgood in Hkvs. rewrite Forall_Exists_neg in Hkvs. done. }
  exists kvs, bad, rest. repeat (split; [by auto|]). split; [|done].
  by apply ParseSubstitutions_first_malformed.
Qed.

(** C10. An element made of a key (the non-empty text before its first
    colon) and a colon with nothing after it is accepted, and the key
    holds the empty string; on the empty list
    [ParseSubstitutions] succeeds and leaves the empty mapping,
    whatever the mapping was. *)
Theorem ParseSubstitutions_empty_value (s : State) (o : loc) (v : Options)
    (Hv : heap s !! o = Some v) :
  (∀ k, is_key k →
     ParseSubstitutions o [k +:+ ":"] s
     = Some (None, upd o (set_substitutions (Some {[ k := "" ]}) v) s))
  ∧ ParseSubstitutions o [] s
    = Some (None, upd o (set_substitutions (Some ∅) v) s).
Proof.
  split.
  - intros k Hk. change [k +:+ ":"] with (map join [(k, "")]).
    rewrite (ParseSubstitutions_keys _ _ _ _ Hv)
      by (apply Forall_cons; split; [exact Hk|constructor]).
    cbn [put_all foldl fst snd]. by rewrite insert_empty.
  - apply (ParseSubstitutions_keys _ [] _ _ Hv). constructor.
Qed.
End ParseSubstitutions.

(** ** The four methods together *)

Section Methods.
Context `{Externals}.

Lemma state_eta (s : State) :
  {| heap := heap s; fs := fs s; trace := trace s ++ [] |} = s.
Proof. destruct s. cbn. by rewrite app_nil_r. Qed.

(** Whatever the path, [ReadTemplate] returns, and leaves a state that
    differs in the pageTemplate of its receiver and in the events
    appended to the trace. *)
Lemma ReadTemplate_outcome (s : State) (o : loc) (v : Options) (path : string) :
  heap s !! o = Some v →
  ∃ r v' t, ReadTemplate o path s
            = Some (r, {| heap := <[o := v']> (heap s); fs := fs s;
                          trace := trace s ++ t |})
            ∧ only_changes [FpageTemplate] v v'
            ∧ (r = None →
               ∀ s', heap s' !! o = Some v' → fs s' = fs s →
                 ∃ t', ReadTemplate o path s'
                       = Some (None, {| heap := heap s'; fs := fs s';
                                        trace := trace s' ++ t' |})).
Proof.
  intros Hv. destruct (decide (path = "")) as [->|Hpath].
  - exists None, (set_pageTemplate "" v), [].
    split; [|split; [frame_fields|]].
    + rewrite (ReadTemplate_no_path _ _ _ Hv). unfold upd, set_heap.
      by rewrite app_nil_r.
    + intros _ s' Hv' _. exists [].
      rewrite (ReadTemplate_no_path _ _ _ Hv'), state_eta.
      change (set_pageTemplate "" (set_pageTemplate "" v))
        with (set_pageTemplate "" v).
      by rewrite (upd_id _ _ _ Hv').
  - destruct (fs s path) as [data [cause|]] eqn:Hfs.
    + exists (Some (fmt.Errorf "reading page template text: %w" cause)), v,
        [EvReadFile path].
      split; [|split; [by intros f _|done]].
      rewrite (ReadTemplate_read_error _ _ _ _ _ Hpath Hfs).
      unfold emit. by rewrite (insert_id _ _ _ Hv).
    + exists None, (set_pageTemplate (String.string_of_list_byte data) v),
        [EvReadFile path; EvInfo ("Using custom template from " +:+ path)].
      split; [by apply ReadTemplate_read|]. split; [frame_fields|].
      intros _ s' Hv' Hfs'. eexists.
      rewrite <- Hfs' in Hfs.
      rewrite (ReadTemplate_read _ _ _ _ _ Hv' Hpath Hfs).
      change (set_pageTemplate ?x (set_pageTemplate ?x v))
        with (set_pageTemplate x v).
      by rewrite (insert_id _ _ _ Hv').
Qed.

(** C9. Whether they succeed or fail, [Validate] leaves the state as it
    was, [ParseSubstitutions] changes at most the substitutions of its
    receiver, [SetRepository] at most its owner and repo, and
    [ReadTemplate] at most its pageTemplate (and the trace of events);
    every other field and every other object keeps its value. *)
Theorem methods_frame (s : State) (o : loc) (v : Options)
    (Hv : heap s !! o = Some v) :
  (∃ r, Validate o s = Some (r, s))
  ∧ (∀ subs, ∃ r v', ParseSubstitutions o subs s = Some (r, upd o v' s)
                     ∧ only_changes [Fsubstitutions] v v')
  ∧ (∀ repoSlug, ∃ r v', SetRepository o repoSlug s = Some (r, upd o v' s)
                         ∧ only_changes [Fowner; Frepo] v v')
  ∧ (∀ path, ∃ r v' t,
       ReadTemplate o path s
       = Some (r, {| heap := <[o := v']> (heap s); fs := fs s;
                     trace := trace s ++ t |})
       ∧ only_changes [FpageTemplate] v v').
Proof.
  split; [by apply Validate_pure with v|].
  split; [|split].
  - intros subs. destruct (ParseSubstitutions_outcome subs) as (r & m & Hrun).
    exists r, (set_substitutions (Some m) v). split; [by apply Hrun|frame_fields].
  - intros repoSlug.
    destruct (ParseRepoSlug repoSlug) as [[org rp] [cause|]] eqn:Hparse.
    + eexists _, v. rewrite (upd_id _ _ _ Hv).
      split; [by apply SetRepository_parse_error with org rp|by intros f _].
    + eexists _, _. split; [by apply SetRepository_parsed|frame_fields].
  - intros path.
    destruct (ReadTemplate_outcome s o v path Hv) as (r & v' & t & Hrun & Hfr & _).
    by exists r, v', t.
Qed.

(** C8. A call that succeeds can be repeated: made again with the same
    argument on the state it left, [Validate], [ParseSubstitutions]
    and [SetRepository] succeed again and leave that state as it is,
    and [ReadTemplate] succeeds again and leaves every object as it
    is, only the trace of events growing. *)
Theorem methods_idempotent (s : State) (o : loc) (v : Options)
    (Hv : heap s !! o = Some v) :
  (∀ s1, Validate o s = Some (None, s1) → Validate o s1 = Some (None, s1))
  ∧ (∀ subs s1, ParseSubstitutions o subs s = Some (None, s1) →
       ParseSubstitutions o subs s1 = Some (None, s1))
  ∧ (∀ repoSlug s1, SetRepository o repoSlug s = Some (None, s1) →
       SetRepository o repoSlug s1 = Some (None, s1))
  ∧ (∀ path s1, ReadTemplate o path s = Some (None, s1) →
       ∃ t, ReadTemplate o path s1
            = Some (None, {| heap := heap s1; fs := fs s1;
                             trace := trace s1 ++ t |})).
Proof.
  split; [|split; [|split]].
  - intros s1 Hrun. destruct (Validate_pure s o v Hv) as [r Hr].
    rewrite Hr in Hrun. by injection Hrun as -> <-.
  - intros subs s1 Hrun.
    destruct (ParseSubstitutions_outcome subs) as (r & m & Hout).
    rewrite (Hout _ _ _ Hv) in Hrun. injection Hrun as -> <-.
    rewrite (Hout _ _ _ (heap_upd _ _ _)). by rewrite upd_upd.
  - intros repoSlug s1 Hrun.
    destruct (ParseRepoSlug repoSlug) as [[org rp] [cause|]] eqn:Hparse.
    + by rewrite (SetRepository_parse_error _ _ _ _ _ _ Hparse) in Hrun.
    + rewrite (SetRepository_parsed _ _ _ _ _ _ Hv Hparse) in Hrun.
      injection Hrun as <-.
      rewrite (SetRepository_parsed _ _ _ _ _ _ (heap_upd _ _ _) Hparse).
      by rewrite upd_upd.
  - intros path s1 Hrun.
    destruct (ReadTemplate_outcome s o v path Hv) as (r & v' & t & Hout & _ & Hagain).
    rewrite Hout in Hrun. injection Hrun as -> <-.
    apply (Hagain eq_refl); [apply lookup_insert_eq|done].
Qed.
End Methods.

(** ** The theorems at work on the sample world *)

Lemma Validate_priority_sample :
  heap sample_state !! sample_loc = Some sample_options
  ∧ Validate sample_loc sample_state = Some (None, sample_state).
Proof.
  split; [reflexivity|].
  destruct (Validate_priority sample_state sample_loc sample_options eq_refl)
    as (r & Hrun & _ & _ & _ & Hnone).
  rewrite Hrun. f_equal. f_equal. apply Hnone. by repeat split.
Defined.

Lemma ParseSubstitutions_accepts_sample :
  heap sample_state !! sample_loc = Some sample_options
  ∧ Forall (λ kv, is_key kv.1) [("KEY", "VALUE"); ("OTHER", "A:B"); ("KEY", "V2")]
  ∧ @ParseSubstitutions sample_externals sample_loc
      ["KEY:VALUE"; "OTHER:A:B"; "KEY:V2"] sample_state
    = Some (None,
            upd sample_loc
              (set_substitutions
                 (Some (put_all ∅ [("KEY", "VALUE"); ("OTHER", "A:B"); ("KEY", "V2")]))
                 sample_options) sample_state)
  ∧ put_all ∅ [("KEY", "VALUE"); ("OTHER", "A:B"); ("KEY", "V2")] !! "KEY" = Some "V2"
  ∧ put_all ∅ [("KEY", "VALUE"); ("OTHER", "A:B"); ("KEY", "V2")] !! "OLD" = None.
Proof.
  assert (Hkeys : Forall (λ kv : string * string, is_key kv.1)
                    [("KEY", "VALUE"); ("OTHER", "A:B"); ("KEY", "V2")]).
  { repeat (apply Forall_cons; split; [by split|]). apply Forall_nil_2. }
  destruct (@ParseSubstitutions_accepts sample_externals sample_state sample_loc
              sample_options _ eq_refl Hkeys) as (Hrun & Hlast & Habsent & _).
  split; [reflexivity|]. split; [exact Hkeys|]. split; [exact Hrun|]. split.
  - apply (Hlast [("KEY", "VALUE"); ("OTHER", "A:B")] "KEY" "V2" []); [reflexivity|].
    apply not_elem_of_nil.
  - apply Habsent. cbn. rewrite !not_elem_of_cons. repeat split; try discriminate.
    apply not_elem_of_nil.
Defined.

Lemma ParseSubstitutions_rejects_sample :
  heap sample_state !! sample_loc = Some sample_options
  ∧ Exists malformed ["A:1"; "NoColonHere"; "B:2"]
  ∧ ∃ e s', @ParseSubstitutions sample_externals sample_loc
              ["A:1"; "NoColonHere"; "B:2"] sample_state = Some (Some e, s').
Proof.
  assert (Hbad : Exists malformed ["A:1"; "NoColonHere"; "B:2"]).
  { apply Exists_cons_tl, Exists_cons_hd. by left. }
  split; [reflexivity|]. split; [exact Hbad|].
  destruct (@ParseSubstitutions_rejects sample_externals sample_state sample_loc
              sample_options _ eq_refl Hbad)
    as (kvs & bad & rest & _ & _ & _ & _ & Hrun & _).
  eauto.
Defined.

Lemma ParseSubstitutions_empty_value_sample :
  heap sample_state !! sample_loc = Some sample_options
  ∧ is_key "KEY"
  ∧ @ParseSubstitutions sample_externals sample_loc ["KEY:"] sample_state
    = Some (None,
            upd sample_loc (set_substitutions (Some {[ "KEY" := "" ]}) sample_options)
              sample_state).
Proof.
  assert (Hkey : is_key "KEY") by by split.
  split; [reflexivity|]. split; [exact Hkey|].
  exact (proj1 (@ParseSubstitutions_empty_value sample_externals sample_state
                  sample_loc sample_options eq_refl) "KEY" Hkey).
Defined.

Lemma SetRepository_atomic_sample :
  heap sample_state !! sample_loc = Some sample_options
  ∧ (∃ e, @SetRepository sample_externals sample_loc "not a slug" sample_state
          = Some (Some e, sample_state)
          ∧ Error e
            = "parsing repository slug: string is not a well formed org/repo slug")
  ∧ (∃ v', @SetRepository sample_externals sample_loc "golang/go" sample_state
           = Some (None, upd sample_loc v' sample_state)
           ∧ owner v' = "golang" ∧ repo v' = "go").
Proof.
  split; [reflexivity|]. split.
  - destruct (proj1 (@SetRepository_atomic sample_externals sample_state sample_loc
                       sample_options "not a slug" eq_refl)
                "" "" (errors.New "string is not a well formed org/repo slug") eq_refl)
      as (e & Hrun & Hmsg & _).
    exists e. split; [exact Hrun|exact Hmsg].
  - destruct (proj2 (@SetRepository_atomic sample_externals sample_state sample_loc
                       sample_options "golang/go" eq_refl) "golang" "go" eq_refl)
      as (v' & Hrun & Howner & Hrepo & _).
    exists v'. repeat split; assumption.
Defined.

Lemma ReadTemplate_file_sample :
  heap sample_state !! sample_loc = Some sample_options
  ∧ "/tmp/page.tmpl" ≠ ""
  ∧ (∃ s', ReadTemplate sample_loc "/tmp/page.tmpl" sample_state = Some (None, s')
           ∧ pageTemplate <$> heap s' !! sample_loc = Some "# Release notes")
  ∧ (∃ e s', ReadTemplate sample_loc "/nonexistent" sample_state = Some (Some e, s')
             ∧ heap s' = heap sample_state).
Proof.
  split; [reflexivity|]. split; [discriminate|]. split.
  - destruct (proj1 (ReadTemplate_file sample_state sample_loc sample_options
                       "/tmp/page.tmpl" eq_refl ltac:(discriminate))
                _ eq_refl) as (Hrun & _).
    eexists. split; [exact Hrun|]. reflexivity.
  - destruct (proj2 (ReadTemplate_file sample_state sample_loc sample_options
                       "/nonexistent" eq_refl ltac:(discriminate))
                _ _ eq_refl) as (e & Hrun & _ & _ & Hheap).
    eauto.
Defined.

Lemma ReadTemplate_empty_path_sample :
  heap sample_state !! sample_loc = Some sample_options
  ∧ pageTemplate sample_options = "old template"
  ∧ ReadTemplate sample_loc "" sample_state
    = Some (None, upd sample_loc (set_pageTemplate "" sample_options) sample_state).
Proof.
  split; [reflexivity|]. split; [reflexivity|].
  exact (proj1 (ReadTemplate_empty_path sample_state sample_loc sample_options eq_refl)).
Defined.

Lemma builder_chain_sample :
  heap sample_state !! sample_loc = Some sample_options
  ∧ ∃ v', WithTag sample_loc "v2.0.0" sample_state
          = Some (sample_loc, upd sample_loc v' sample_state)
          ∧ field Ftag v' = VString "v2.0.0"
          ∧ only_changes [Ftag] sample_options v'.
Proof.
  split; [reflexivity|].
  destruct (builder_chain sample_state sample_loc sample_options eq_refl)
    as (_ & _ & _ & Htag & _).
  exact (Htag "v2.0.0").
Defined.

Lemma methods_frame_sample :
  heap sample_state !! sample_loc = Some sample_options
  ∧ ∃ r v', @SetRepository sample_externals sample_loc "golang/go" sample_state
            = Some (r, upd sample_loc v' sample_state)
            ∧ only_changes [Fowner; Frepo] sample_options v'.
Proof.
  split; [reflexivity|].
  destruct (@methods_frame sample_externals sample_state sample_loc sample_options
              eq_refl) as (_ & _ & Hset & _).
  exact (Hset "golang/go").
Defined.

Lemma methods_idempotent_sample :
  heap sample_state !! sample_loc = Some sample_options
  ∧ Validate sample_loc sample_state = Some (None, sample_state)
  ∧ (∃ s1, @ParseSubstitutions sample_externals sample_loc ["KEY:VALUE"] sample_state
           = Some (None, s1)
           ∧ @ParseSubstitutions sample_externals sample_loc ["KEY:VALUE"] s1
             = Some (None, s1))
  ∧ (∃ s1, @SetRepository sample_externals sample_loc "golang/go" sample_state
           = Some (None, s1)
           ∧ @SetRepository sample_externals sample_loc "golang/go" s1
             = Some (None, s1))
  ∧ (∃ s1 t, ReadTemplate sample_loc "/tmp/page.tmpl" sample_state = Some (None, s1)
             ∧ ReadTemplate sample_loc "/tmp/page.tmpl" s1
               = Some (None, {| heap := heap s1; fs := fs s1; trace := trace s1 ++ t |})).
Proof.
  destruct (@methods_idempotent sample_externals sample_state sample_loc
              sample_options eq_refl) as (Hval & Hparse & Hset & Hread).
  split; [reflexivity|].
  split; [exact (Hval sample_state eq_refl)|].
  split; [|split].
  - eexists. split; [|apply Hparse]; vm_compute; reflexivity.
  - eexists. split; [|apply Hset]; vm_compute; reflexivity.
  - destruct (Hread "/tmp/page.tmpl" _ eq_refl) as [t Ht]. eauto.
Defined.

(** ** The mapping [ParseSubstitutions] leaves *)

(** Storing entries in order is building the mapping of the reversed
    list, in which the first binding of a key is the one that counts. *)
Lemma put_all_list_to_map (kvs : list (string * string)) :
  ∀ m, put_all m kvs = list_to_map (reverse kvs) ∪ m.
Proof.
  induction kvs as [|[k x] kvs IH]; intros m.
  - cbn. by rewrite (left_id_L ∅ (∪)).
  - cbn [put_all foldl fst snd]. fold (put_all (<[k:=x]> m) kvs).
    rewrite IH, reverse_cons, list_to_map_app. cbn [list_to_map foldr fst snd].
    rewrite insert_empty, <- (assoc_L (∪)). by rewrite <- insert_union_singleton_l.
Qed.

Lemma put_all_empty (kvs : list (string * string)) :
  put_all ∅ kvs = list_to_map (reverse kvs).
Proof. by rewrite put_all_list_to_map, (right_id_L ∅ (∪)). Qed.

Lemma put_all_lookup_elem_of kvs k x :
  put_all ∅ kvs !! k = Some x → (k, x) ∈ kvs.
Proof.
  rewrite put_all_empty. intros Hk%elem_of_list_to_map_2.
  by apply elem_of_reverse.
Qed.

Lemma put_all_dom kvs : dom (put_all ∅ kvs) = list_to_set kvs.*1.
Proof.
  rewrite put_all_empty, dom_list_to_map_L, fmap_reverse.
  apply set_eq. intros k. by rewrite !elem_of_list_to_set, elem_of_reverse.
Qed.

Lemma list_to_map_size_le (l : list (string * string)) :
  (size (list_to_map l : gmap string string) ≤ length l)%nat.
Proof.
  induction l as [|[k x] l IH]; [by rewrite list_to_map_nil, map_size_empty|].
  rewrite list_to_map_cons, map_size_insert. cbn [length].
  destruct (_ !! k); cbn; lia.
Qed.

Lemma put_all_size_le kvs : (size (put_all ∅ kvs) ≤ length kvs)%nat.
Proof. rewrite put_all_empty, <- (length_reverse kvs). apply list_to_map_size_le. Qed.

Lemma put_all_size_NoDup kvs :
  NoDup kvs.*1 → size (put_all ∅ kvs) = length kvs.
Proof.
  intros Hnd. rewrite put_all_empty, <- (length_reverse kvs).
  apply map_size_list_to_map. by rewrite fmap_reverse, reverse_Permutation.
Qed.


Section Mapping.
Context `{Externals}.

(** X1. Whatever the list, and whether the call succeeds or fails, every
    entry of the mapping [ParseSubstitutions] leaves comes from an
    element of the list: its key is not empty and holds no colon, and
    key, colon and value written together are that element. *)
Theorem ParseSubstitutions_entries_from_input (s : State) (o : loc) (v : Options)
    (subs : list string) (Hv : heap s !! o = Some v) :
  ∃ r m, ParseSubstitutions o subs s
         = Some (r, upd o (set_substitutions (Some m) v) s)
    ∧ ∀ k x, m !! k = Some x →
        k ≠ "" ∧ occurs ":" k = false ∧ k +:+ ":" +:+ x ∈ subs.
Proof.
  assert (Hin : ∀ kvs k x, Forall (λ kv : string * string, is_key kv.1) kvs →
                  put_all ∅ kvs !! k = Some x →
                  k ≠ "" ∧ occurs ":" k = false ∧ k +:+ ":" +:+ x ∈ map join kvs).
  { intros kvs k x Hkvs Hk%put_all_lookup_elem_of.
    rewrite Forall_forall in Hkvs. destruct (Hkvs _ Hk) as [Hne Hno].
    repeat split; [done..|]. apply (list_elem_of_fmap_2 join _ _ Hk). }
  destruct (first_malformed subs)
    as [[kvs [-> Hkvs]]|(kvs & bad & rest & -> & Hkvs & Hb)].
  - eexists _, _. split; [by apply ParseSubstitutions_keys|].
    intros k x. by apply Hin.
  - eexists _, _. split; [by apply ParseSubstitutions_first_malformed|].
    intros k x Hk. destruct (Hin _ _ _ Hkvs Hk) as (? & ? & ?).
    repeat split; [done..|]. apply elem_of_app. by left.
Qed.

(** X2. On a list of well-formed elements the mapping left holds exactly
    the keys of the list; it has at most as many entries as the list has
    elements, and as many when no key is repeated. *)
Theorem ParseSubstitutions_keys_present (s : State) (o : loc) (v : Options)
    (kvs : list (string * string))
    (Hv : heap s !! o = Some v) (Hkeys : Forall (λ kv, is_key kv.1) kvs) :
  ∃ m, ParseSubstitutions o (map join kvs) s
       = Some (None, upd o (set_substitutions (Some m) v) s)
    ∧ dom m = list_to_set kvs.*1
    ∧ (size m ≤ length kvs)%nat
    ∧ (NoDup kvs.*1 → size m = length kvs).
Proof.
  exists (put_all ∅ kvs). split; [by apply ParseSubstitutions_keys|].
  split; [apply put_all_dom|]. split; [apply put_all_size_le|apply put_all_size_NoDup].
Qed.

End Mapping.

(** ** Builder methods in sequence *)

Lemma apply_setting_Some (o : loc) (a : Setting) (v : Options) (s : State) :
  heap s !! o = Some v →
  apply_setting o a s = Some (o, upd o (setting_update a v) s).
Proof. intros Hv. destruct a; exact (builder_Some _ _ _ _ Hv). Qed.

Lemma apply_setting_twice (o : loc) (a b : Setting) (v : Options) (s : State) :
  heap s !! o = Some v →
  (o' ← apply_setting o a; apply_setting o' b) s
  = Some (o, upd o (setting_update b (setting_update a v)) s).
Proof.
  intros Hv. rewrite (bind_Some _ _ _ _ _ (apply_setting_Some _ a _ _ Hv)).
  by rewrite (apply_setting_Some _ b _ _ (heap_upd _ _ _)), upd_upd.
Qed.

Lemma setting_update_comm (a b : Setting) (v : Options) :
  setting_field a ≠ setting_field b →
  setting_update b (setting_update a v) = setting_update a (setting_update b v).
Proof. destruct a, b; intros Hne; try reflexivity; by destruct Hne. Qed.

Lemma setting_update_same (a b : Setting) (v : Options) :
  setting_field a = setting_field b →
  setting_update b (setting_update a v) = setting_update b v.
Proof. destruct a, b; intros Heq; try discriminate Heq; reflexivity. Qed.

Lemma setting_update_frame (a : Setting) (v : Options) :
  only_changes [setting_field a] v (setting_update a v).
Proof. destruct a; frame_fields. Qed.

(** X4. Two builder calls on the same object: when they are methods of
    different fields their order does not matter, and when they are the
    same method the second call alone gives the same state (the last
    value wins). *)
Theorem builders_compose (s : State) (o : loc) (v : Options) (a b : Setting)
    (Hv : heap s !! o = Some v) :
  (setting_field a ≠ setting_field b →
     (o' ← apply_setting o a; apply_setting o' b) s
     = (o' ← apply_setting o b; apply_setting o' a) s)
  ∧ (setting_field a = setting_field b →
     (o' ← apply_setting o a; apply_setting o' b) s = apply_setting o b s).
Proof.
  rewrite !(apply_setting_twice _ _ _ _ _ Hv), (apply_setting_Some _ b _ _ Hv).
  split; intros Hab.
  - by rewrite (setting_update_comm _ _ _ Hab).
  - by rewrite (setting_update_same _ _ _ Hab).
Qed.

(** ** [Validate] after the other operations *)

(** The result of [Validate], read off the three fields. *)
Lemma Validate_run (s : State) (o : loc) (v : Options) :
  heap s !! o = Some v →
  Validate o s
  = Some (if String.eqb (tag v) "" then Some missing_tag
          else if String.eqb (repo v) "" then Some missing_repo
          else if String.eqb (owner v) "" then Some missing_org
          else None, s).
Proof.
  intros Hv. unfold Validate.
  rewrite (bind_Some _ _ _ _ _ (load_Some _ _ _ Hv)).
  destruct (String.eqb (tag v) ""); [done|].
  rewrite (bind_Some _ _ _ _ _ (load_Some _ _ _ Hv)).
  destruct (String.eqb (repo v) ""); [done|].
  rewrite (bind_Some _ _ _ _ _ (load_Some _ _ _ Hv)).
  by destruct (String.eqb (owner v) "").
Qed.

Lemma Validate_result_fields (s s' : State) (o o' : loc) (v v' : Options) :
  heap s !! o = Some v → heap s' !! o' = Some v' →
  tag v = tag v' → repo v = repo v' → owner v = owner v' →
  result (Validate o) s = result (Validate o') s'.
Proof.
  intros Hv Hv' Ht Hr Ho. unfold result.
  rewrite (Validate_run _ _ _ Hv), (Validate_run _ _ _ Hv'). cbn.
  by rewrite Ht, Hr, Ho.
Qed.

(** The result of [Validate] from the emptiness of the three fields. *)
Lemma Validate_cases (t r ow : string) :
  let res := if String.eqb t "" then Some missing_tag
             else if String.eqb r "" then Some missing_repo
             else if String.eqb ow "" then Some missing_org
             else None in
  (res = None ↔ t ≠ "" ∧ r ≠ "" ∧ ow ≠ "")
  ∧ (t = "" → res = Some missing_tag)
  ∧ (t ≠ "" → r = "" → res = Some missing_repo)
  ∧ (t ≠ "" → r ≠ "" → ow = "" → res = Some missing_org).
Proof.
  cbv zeta.
  destruct (String.eqb_spec t ""), (String.eqb_spec r ""), (String.eqb_spec ow "");
    unfold missing_tag, missing_repo, missing_org, errors.New;
    intuition (congruence || discriminate).
Qed.

(** X5. A new object never validates: [Validate] reports the missing
    tag.  After [WithTag], [WithOwner] and [WithRepo] on a new object,
    [Validate] succeeds exactly when the three arguments were non-empty,
    and otherwise reports the first empty one in the order tag, repo,
    owner. *)
Theorem configured_Validate (s : State) (t ow r : string) :
  result (o ← NewOptions; Validate o) s = Some (Some missing_tag)
  ∧ ∃ res,
      result (o ← NewOptions; o ← WithTag o t; o ← WithOwner o ow;
              o ← WithRepo o r; Validate o) s = Some res
      ∧ (res = None ↔ t ≠ "" ∧ r ≠ "" ∧ ow ≠ "")
      ∧ (t = "" → res = Some missing_tag)
      ∧ (t ≠ "" → r = "" → res = Some missing_repo)
      ∧ (t ≠ "" → r ≠ "" → ow = "" → res = Some missing_org).
Proof.
  destruct (NewOptions_fresh s) as (o & z & Hnew & _ & Hzero).
  unfold result. split.
  - rewrite (bind_Some _ _ _ _ _ Hnew), (Validate_run _ _ _ (heap_upd _ _ _)).
    assert (Hz : tag z = "") by (by injection (Hzero Ftag)).
    by rewrite Hz.
  - eexists. split; [|apply (Validate_cases t r ow)].
    rewrite (bind_Some _ _ _ _ _ Hnew). unfold WithTag, WithOwner, WithRepo.
    rewrite (bind_Some _ _ _ _ _ (builder_Some _ _ _ _ (heap_upd o z s))), upd_upd.
    rewrite (bind_Some _ _ _ _ _ (builder_Some _ _ _ _ (heap_upd o _ s))), upd_upd.
    rewrite (bind_Some _ _ _ _ _ (builder_Some _ _ _ _ (heap_upd o _ s))), upd_upd.
    by rewrite (Validate_run _ _ _ (heap_upd _ _ _)).
Qed.

Section Composition.
Context `{Externals}.

(** X6. [SetRepository] does not look at what the parser returns: after
    a successful call [Validate] passes exactly when the tag and the two
    parsed parts are non-empty, and reports the missing repository when
    the parser gave an empty repository with a non-empty tag. *)
Theorem SetRepository_then_Validate (s : State) (o : loc) (v : Options)
    (repoSlug org rp : string)
    (Hv : heap s !! o = Some v)
    (Hparse : ParseRepoSlug repoSlug = (org, rp, None)) :
  ∃ res, result (e ← SetRepository o repoSlug; Validate o) s = Some res
    ∧ (res = None ↔ tag v ≠ "" ∧ rp ≠ "" ∧ org ≠ "")
    ∧ (tag v = "" → res = Some missing_tag)
    ∧ (tag v ≠ "" → rp = "" → res = Some missing_repo)
    ∧ (tag v ≠ "" → rp ≠ "" → org = "" → res = Some missing_org).
Proof.
  eexists. split; [|apply (Validate_cases (tag v) rp org)].
  unfold result.
  rewrite (bind_Some _ _ _ _ _ (SetRepository_parsed _ _ _ _ _ _ Hv Hparse)).
  by rewrite (Validate_run _ _ _ (heap_upd _ _ _)).
Qed.

(** X7. [Validate] looks at tag, repo and owner only: two objects that
    agree on them get the same result, so a builder method of another
    field, [ParseSubstitutions] or [ReadTemplate], whatever they did,
    leave the result of [Validate] as it was. *)
Theorem Validate_reads_three_fields (s : State) (o : loc) (v : Options)
    (Hv : heap s !! o = Some v) :
  (∀ s' o' v', heap s' !! o' = Some v' →
     tag v = tag v' → repo v = repo v' → owner v = owner v' →
     result (Validate o') s' = result (Validate o) s)
  ∧ (∀ a, setting_field a ∉ [Ftag; Frepo; Fowner] →
       result (o' ← apply_setting o a; Validate o') s = result (Validate o) s)
  ∧ (∀ subs, result (e ← ParseSubstitutions o subs; Validate o) s
             = result (Validate o) s)
  ∧ (∀ path, result (e ← ReadTemplate o path; Validate o) s
             = result (Validate o) s).
Proof.
  assert (Hframe : ∀ fs v', only_changes fs v v' →
            Ftag ∉ fs → Frepo ∉ fs → Fowner ∉ fs →
            tag v = tag v' ∧ repo v = repo v' ∧ owner v = owner v').
  { intros fs v' Hch Ht Hr Ho.
    pose proof (Hch _ Ht) as Et. pose proof (Hch _ Hr) as Er.
    pose proof (Hch _ Ho) as Eo. cbn in Et, Er, Eo.
    by injection Et as ->; injection Er as ->; injection Eo as ->. }
  split; [|split; [|split]].
  - intros s' o' v' Hv' Ht Hr Ho. symmetry.
    by apply Validate_result_fields with v v'.
  - intros a Ha. unfold result at 1.
    rewrite (bind_Some _ _ _ _ _ (apply_setting_Some _ a _ _ Hv)).
    destruct (Hframe _ _ (setting_update_frame a v)) as (Ht & Hr & Ho);
      [intros Hin%list_elem_of_singleton; apply Ha;
       rewrite <- Hin, !elem_of_cons; auto..|].
    symmetry. by apply Validate_result_fields with v (setting_update a v);
      [|apply heap_upd|..].
  - intros subs. destruct (ParseSubstitutions_outcome subs) as (r & m & Hrun).
    unfold result at 1. rewrite (bind_Some _ _ _ _ _ (Hrun _ _ _ Hv)).
    symmetry. by apply Validate_result_fields
      with v (set_substitutions (Some m) v); [|apply heap_upd|..].
  - intros path.
    destruct (ReadTemplate_outcome s o v path Hv) as (r & v' & t & Hrun & Hch & _).
    unfold result at 1. rewrite (bind_Some _ _ _ _ _ Hrun).
    destruct (Hframe _ _ Hch) as (Ht & Hr & Ho);
      [by intros ?%list_elem_of_singleton..|].
    symmetry. by apply Validate_result_fields with v v';
      [|apply lookup_insert_eq|..].
Qed.
End Composition.

(** ** The methods in either order *)

(** What [ReadTemplate] does depends on the path and the file system
    alone: a result, an assignment to pageTemplate (or none) and the
    events it adds. *)
Lemma ReadTemplate_uniform (s : State) (path : string) :
  ∃ r (f : Options → Options) t,
    (f = id ∨ ∃ x, f = set_pageTemplate x)
    ∧ ∀ o s' v', fs s' = fs s → heap s' !! o = Some v' →
        ReadTemplate o path s'
        = Some (r, {| heap := <[o := f v']> (heap s'); fs := fs s';
                      trace := trace s' ++ t |}).
Proof.
  destruct (decide (path = "")) as [->|Hpath].
  - exists None, (set_pageTemplate ""), []. split; [by eauto|].
    intros o s' v' _ Hv'. rewrite (ReadTemplate_no_path _ _ _ Hv').
    unfold upd, set_heap. by rewrite app_nil_r.
  - destruct (fs s path) as [data [cause|]] eqn:Hfs.
    + exists (Some (fmt.Errorf "reading page template text: %w" cause)), id,
        [EvReadFile path].
      split; [by left|]. intros o s' v' Hfs' Hv'.
      rewrite <- Hfs' in Hfs. rewrite (ReadTemplate_read_error _ _ _ _ _ Hpath Hfs).
      unfold emit, id. by rewrite (insert_id _ _ _ Hv').
    + exists None, (set_pageTemplate (String.string_of_list_byte data)),
        [EvReadFile path; EvInfo ("Using custom template from " +:+ path)].
      split; [by eauto|]. intros o s' v' Hfs' Hv'.
      rewrite <- Hfs' in Hfs. by apply ReadTemplate_read.
Qed.

Section Commutation.
Context `{Externals}.

(** What [SetRepository] does depends on the slug alone. *)
Lemma SetRepository_uniform (repoSlug : string) :
  ∃ r (g : Options → Options),
    (g = id ∨ ∃ org rp, g = λ v, set_repo rp (set_owner org v))
    ∧ ∀ o s v, heap s !! o = Some v →
        SetRepository o repoSlug s = Some (r, upd o (g v) s).
Proof.
  destruct (ParseRepoSlug repoSlug) as [[org rp] [cause|]] eqn:Hparse.
  - exists (Some (fmt.Errorf "parsing repository slug: %w" cause)), id.
    split; [by left|]. intros o s v Hv.
    rewrite (SetRepository_parse_error _ _ _ _ _ _ Hparse).
    unfold id. by rewrite (upd_id _ _ _ Hv).
  - exists None, (λ v, set_repo rp (set_owner org v)).
    split; [by eauto|]. intros o s v Hv.
    by apply SetRepository_parsed.
Qed.

(** X8. [ParseSubstitutions], [SetRepository] and [ReadTemplate] do not
    interfere: called one after the other on the same object, any two of
    them return the same two results and leave the same state in either
    order, whether they succeed or fail. *)
Theorem methods_commute (s : State) (o : loc) (v : Options)
    (subs : list string) (repoSlug path : string)
    (Hv : heap s !! o = Some v) :
  (∃ out,
     (r1 ← ParseSubstitutions o subs; r2 ← SetRepository o repoSlug;
      mret (r1, r2)) s = Some out
     ∧ (r2 ← SetRepository o repoSlug; r1 ← ParseSubstitutions o subs;
        mret (r1, r2)) s = Some out)
  ∧ (∃ out,
       (r1 ← ParseSubstitutions o subs; r3 ← ReadTemplate o path;
        mret (r1, r3)) s = Some out
       ∧ (r3 ← ReadTemplate o path; r1 ← ParseSubstitutions o subs;
          mret (r1, r3)) s = Some out)
  ∧ (∃ out,
       (r2 ← SetRepository o repoSlug; r3 ← ReadTemplate o path;
        mret (r2, r3)) s = Some out
       ∧ (r3 ← ReadTemplate o path; r2 ← SetRepository o repoSlug;
          mret (r2, r3)) s = Some out).
Proof.
  destruct (ParseSubstitutions_outcome subs) as (r1 & m & Hps).
  destruct (SetRepository_uniform repoSlug) as (r2 & g & Hg & Hsr).
  destruct (ReadTemplate_uniform s path) as (r3 & f & t & Hf & Hrt).
  split; [|split].
  - eexists. split.
    + rewrite (bind_Some _ _ _ _ _ (Hps _ _ _ Hv)).
      rewrite (bind_Some _ _ _ _ _ (Hsr _ _ _ (heap_upd _ _ _))), upd_upd.
      reflexivity.
    + rewrite (bind_Some _ _ _ _ _ (Hsr _ _ _ Hv)).
      rewrite (bind_Some _ _ _ _ _ (Hps _ _ _ (heap_upd _ _ _))), upd_upd.
      by destruct Hg as [->|(org & rp & ->)].
  - eexists. split.
    + rewrite (bind_Some _ _ _ _ _ (Hps _ _ _ Hv)).
      rewrite (bind_Some _ _ _ _ _
                 (Hrt o (upd o _ s) _ eq_refl (heap_upd _ _ _))).
      reflexivity.
    + rewrite (bind_Some _ _ _ _ _ (Hrt _ _ _ eq_refl Hv)).
      rewrite (bind_Some _ _ _ _ _ (Hps o _ _ (lookup_insert_eq _ _ _))).
      unfold mret, M_ret, upd, set_heap. cbn. rewrite !insert_insert_eq.
      by destruct Hf as [->|(x & ->)].
  - eexists. split.
    + rewrite (bind_Some _ _ _ _ _ (Hsr _ _ _ Hv)).
      rewrite (bind_Some _ _ _ _ _
                 (Hrt o (upd o _ s) _ eq_refl (heap_upd _ _ _))).
      reflexivity.
    + rewrite (bind_Some _ _ _ _ _ (Hrt _ _ _ eq_refl Hv)).
      rewrite (bind_Some _ _ _ _ _ (Hsr o _ _ (lookup_insert_eq _ _ _))).
      unfold mret, M_ret, upd, set_heap. cbn. rewrite !insert_insert_eq.
      by destruct Hf as [->|(x & ->)], Hg as [->|(org & rp & ->)].
Qed.
End Commutation.

(** ** A receiver that points to no object *)

Lemma load_None (o : loc) (s : State) : heap s !! o = None → load o s = None.
Proof. intros Hnil. unfold load. by rewrite Hnil. Qed.

Lemma assign_None {A} (o : loc) (f : Options → Options) (k : unit → M A) (s : State) :
  heap s !! o = None → (assign o f ≫= k) s = None.
Proof.
  intros Hnil. unfold assign, mbind, M_bind. by rewrite (load_None _ _ Hnil).
Qed.

Section NilReceiver.
Context `{Externals}.

(** X9. On a receiver that points to no object ([nil]), [Validate],
    every builder method, [ParseSubstitutions] and [ReadTemplate] with
    the empty path panic.  [SetRepository] and [ReadTemplate] with a
    path report a failure of the parser or of the read before they touch
    the receiver: they return their error, and panic only when the
    parser or the read succeeds. *)
Theorem nil_receiver (s : State) (o : loc) (Hnil : heap s !! o = None) :
  Validate o s = None
  ∧ (∀ a, apply_setting o a s = None)
  ∧ (∀ subs, ParseSubstitutions o subs s = None)
  ∧ ReadTemplate o "" s = None
  ∧ (∀ repoSlug org rp, ParseRepoSlug repoSlug = (org, rp, None) →
       SetRepository o repoSlug s = None)
  ∧ (∀ repoSlug org rp cause, ParseRepoSlug repoSlug = (org, rp, Some cause) →
       SetRepository o repoSlug s
       = Some (Some (fmt.Errorf "parsing repository slug: %w" cause), s))
  ∧ (∀ path data, path ≠ "" → fs s path = (data, None) →
       ReadTemplate o path s = None)
  ∧ (∀ path data cause, path ≠ "" → fs s path = (data, Some cause) →
       ReadTemplate o path s
       = Some (Some (fmt.Errorf "reading page template text: %w" cause),
               emit (EvReadFile path) s)).
Proof.
  repeat split.
  - unfold Validate, mbind, M_bind. by rewrite (load_None _ _ Hnil).
  - intros []; by apply assign_None.
  - intros subs. by apply assign_None.
  - unfold ReadTemplate. cbn [String.eqb]. by apply assign_None.
  - intros repoSlug org rp Hparse. unfold SetRepository. rewrite Hparse.
    by apply assign_None.
  - intros repoSlug org rp cause Hparse.
    by apply SetRepository_parse_error with org rp.
  - intros path data Hpath%String.eqb_neq Hfs.
    unfold ReadTemplate. rewrite Hpath.
    unfold os.ReadFile, logrus.Infof, mbind at 1, M_bind at 1. rewrite Hfs.
    unfold mbind at 1, M_bind at 1. by apply assign_None.
  - intros path data cause Hpath Hfs. by apply ReadTemplate_read_error with data.
Qed.
End NilReceiver.

(** ** Lists put end to end *)

Section Concatenation.
Context `{Externals}.

(** X10. What follows the first malformed element is never looked at:
    whatever stands before a malformed element, the call on the list cut
    after that element and the call on the whole list return the same
    error and leave the same state. *)
Theorem ParseSubstitutions_ignores_rest (s : State) (o : loc) (v : Options)
    (pre rest : list string) (bad : string)
    (Hv : heap s !! o = Some v) (Hbad : malformed bad) :
  ∃ e s', ParseSubstitutions o (pre ++ bad :: rest) s = Some (Some e, s')
          ∧ ParseSubstitutions o (pre ++ [bad]) s = Some (Some e, s').
Proof.
  destruct (first_malformed pre)
    as [[kvs [-> Hkvs]]|(kvs & bad' & rest' & -> & Hkvs & Hb)].
  - eexists _, _.
    split; by apply ParseSubstitutions_first_malformed.
  - rewrite <- !app_assoc, <- !app_comm_cons. eexists _, _.
    split; by apply ParseSubstitutions_first_malformed.
Qed.

(** X11. Two lists of well-formed elements put end to end leave the
    union of the two mappings they leave one by one, an entry of the
    second list winning over an entry of the first with the same key. *)
Theorem ParseSubstitutions_app (s : State) (o : loc) (v : Options)
    (kvs1 kvs2 : list (string * string))
    (Hv : heap s !! o = Some v)
    (Hkeys1 : Forall (λ kv, is_key kv.1) kvs1)
    (Hkeys2 : Forall (λ kv, is_key kv.1) kvs2) :
  ∃ m1 m2,
    ParseSubstitutions o (map join kvs1) s
    = Some (None, upd o (set_substitutions (Some m1) v) s)
    ∧ ParseSubstitutions o (map join kvs2) s
      = Some (None, upd o (set_substitutions (Some m2) v) s)
    ∧ ParseSubstitutions o (map join kvs1 ++ map join kvs2) s
      = Some (None, upd o (set_substitutions (Some (m2 ∪ m1)) v) s).
Proof.
  exists (put_all ∅ kvs1), (put_all ∅ kvs2).
  split; [by apply ParseSubstitutions_keys|].
  split; [by apply ParseSubstitutions_keys|].
  rewrite <- map_app, (ParseSubstitutions_keys _ _ _ _ Hv)
    by (by apply Forall_app).
  by rewrite !put_all_empty, reverse_app, list_to_map_app.
Qed.
End Concatenation.

(** ** These theorems at work on the sample world *)

Lemma ParseSubstitutions_entries_from_input_sample :
  heap sample_state !! sample_loc = Some sample_options
  ∧ ∃ r m, @ParseSubstitutions sample_externals sample_loc ["A:1"; "x"; "B:2"]
             sample_state
           = Some (r, upd sample_loc (set_substitutions (Some m) sample_options)
                        sample_state)
      ∧ ∀ k x, m !! k = Some x →
          k ≠ "" ∧ occurs ":" k = false ∧ k +:+ ":" +:+ x ∈ ["A:1"; "x"; "B:2"].
Proof.
  split; [reflexivity|].
  exact (@ParseSubstitutions_entries_from_input sample_externals sample_state
           sample_loc sample_options ["A:1"; "x"; "B:2"] eq_refl).
Defined.

Lemma ParseSubstitutions_keys_present_sample :
  heap sample_state !! sample_loc = Some sample_options
  ∧ Forall (λ kv, is_key kv.1) [("A", "1"); ("B", "2")]
  ∧ NoDup [("A", "1"); ("B", "2")].*1
  ∧ ∃ m, @ParseSubstitutions sample_externals sample_loc ["A:1"; "B:2"] sample_state
         = Some (None, upd sample_loc (set_substitutions (Some m) sample_options)
                         sample_state)
      ∧ size m = 2%nat.
Proof.
  assert (Hkeys : Forall (λ kv : string * string, is_key kv.1)
                    [("A", "1"); ("B", "2")]).
  { repeat (apply Forall_cons; split; [by split|]). apply Forall_nil_2. }
  assert (Hnd : NoDup [("A", "1"); ("B", "2")].*1).
  { apply NoDup_cons. split; [|apply NoDup_singleton].
    rewrite list_elem_of_singleton. discriminate. }
  split; [reflexivity|]. split; [exact Hkeys|]. split; [exact Hnd|].
  destruct (@ParseSubstitutions_keys_present sample_externals sample_state
              sample_loc sample_options _ eq_refl Hkeys)
    as (m & Hrun & _ & _ & Hsize).
  exists m. split; [exact Hrun|exact (Hsize Hnd)].
Defined.


Lemma builders_compose_sample :
  heap sample_state !! sample_loc = Some sample_options
  ∧ setting_field (SetTag "v2.0.0") ≠ setting_field (SetDraft false)
  ∧ (o ← WithTag sample_loc "v2.0.0"; WithDraft o false) sample_state
    = (o ← WithDraft sample_loc false; WithTag o "v2.0.0") sample_state
  ∧ (o ← WithTag sample_loc "v2.0.0"; WithTag o "v3.0.0") sample_state
    = WithTag sample_loc "v3.0.0" sample_state.
Proof.
  split; [reflexivity|]. split; [discriminate|]. split.
  - exact (proj1 (builders_compose sample_state sample_loc sample_options
                    (SetTag "v2.0.0") (SetDraft false) eq_refl)
             ltac:(discriminate)).
  - exact (proj2 (builders_compose sample_state sample_loc sample_options
                    (SetTag "v2.0.0") (SetTag "v3.0.0") eq_refl) eq_refl).
Defined.

Lemma SetRepository_then_Validate_sample :
  heap sample_state !! sample_loc = Some sample_options
  ∧ @ParseRepoSlug sample_externals "golang/" = ("golang", "", None)
  ∧ result (e ← @SetRepository sample_externals sample_loc "golang/";
            Validate sample_loc) sample_state = Some (Some missing_repo).
Proof.
  split; [reflexivity|]. split; [reflexivity|].
  destruct (@SetRepository_then_Validate sample_externals sample_state sample_loc
              sample_options "golang/" "golang" "" eq_refl eq_refl)
    as (res & Hrun & _ & _ & Hrepo & _).
  rewrite Hrun. f_equal. apply Hrepo; [discriminate|reflexivity].
Defined.

Lemma Validate_reads_three_fields_sample :
  heap sample_state !! sample_loc = Some sample_options
  ∧ result (e ← @ParseSubstitutions sample_externals sample_loc ["x"];
            Validate sample_loc) sample_state
    = result (Validate sample_loc) sample_state.
Proof.
  split; [reflexivity|].
  destruct (@Validate_reads_three_fields sample_externals sample_state sample_loc
              sample_options eq_refl) as (_ & _ & Hparse & _).
  exact (Hparse ["x"]).
Defined.

Lemma methods_commute_sample :
  heap sample_state !! sample_loc = Some sample_options
  ∧ ∃ out,
      (r2 ← @SetRepository sample_externals sample_loc "golang/go";
       r3 ← ReadTemplate sample_loc "/tmp/page.tmpl"; mret (r2, r3)) sample_state
      = Some out
      ∧ (r3 ← ReadTemplate sample_loc "/tmp/page.tmpl";
         r2 ← @SetRepository sample_externals sample_loc "golang/go";
         mret (r2, r3)) sample_state = Some out.
Proof.
  split; [reflexivity|].
  destruct (@methods_commute sample_externals sample_state sample_loc
              sample_options [] "golang/go" "/tmp/page.tmpl" eq_refl)
    as (_ & _ & Hcomm).
  exact Hcomm.
Defined.

Lemma nil_receiver_sample :
  heap sample_state !! 2%positive = None
  ∧ Validate 2%positive sample_state = None
  ∧ ∃ e, @SetRepository sample_externals 2%positive "not a slug" sample_state
         = Some (Some e, sample_state).
Proof.
  destruct (@nil_receiver sample_externals sample_state 2%positive eq_refl)
    as (Hval & _ & _ & _ & _ & Hset & _).
  split; [reflexivity|]. split; [exact Hval|].
  eexists. exact (Hset "not a slug" _ _ _ eq_refl).
Defined.

Lemma ParseSubstitutions_ignores_rest_sample :
  heap sample_state !! sample_loc = Some sample_options
  ∧ malformed ":v"
  ∧ ∃ e s',
      @ParseSubstitutions sample_externals sample_loc ["A:1"; ":v"; "B:2"]
        sample_state = Some (Some e, s')
      ∧ @ParseSubstitutions sample_externals sample_loc ["A:1"; ":v"] sample_state
        = Some (Some e, s').
Proof.
  assert (Hbad : malformed ":v") by (right; by exists "v").
  split; [reflexivity|]. split; [exact Hbad|].
  exact (@ParseSubstitutions_ignores_rest sample_externals sample_state sample_loc
           sample_options ["A:1"] ["B:2"] ":v" eq_refl Hbad).
Defined.

Lemma ParseSubstitutions_app_sample :
  heap sample_state !! sample_loc = Some sample_options
  ∧ Forall (λ kv, is_key kv.1) [("A", "1"); ("B", "2")]
  ∧ Forall (λ kv, is_key kv.1) [("A", "3")]
  ∧ ∃ m1 m2,
      @ParseSubstitutions sample_externals sample_loc ["A:1"; "B:2"] sample_state
      = Some (None, upd sample_loc (set_substitutions (Some m1) sample_options)
                      sample_state)
      ∧ @ParseSubstitutions sample_externals sample_loc ["A:3"] sample_state
        = Some (None, upd sample_loc (set_substitutions (Some m2) sample_options)
                        sample_state)
      ∧ @ParseSubstitutions sample_externals sample_loc ["A:1"; "B:2"; "A:3"]
          sample_state
        = Some (None, upd sample_loc
                        (set_substitutions (Some (m2 ∪ m1)) sample_options)
                        sample_state).
Proof.
  assert (Hk1 : Forall (λ kv : string * string, is_key kv.1)
                  [("A", "1"); ("B", "2")]).
  { repeat (apply Forall_cons; split; [by split|]). apply Forall_nil_2. }
  assert (Hk2 : Forall (λ kv : string * string, is_key kv.1) [("A", "3")]).
  { repeat (apply Forall_cons; split; [by split|]). apply Forall_nil_2. }
  split; [reflexivity|]. split; [exact Hk1|]. split; [exact Hk2|].
  exact (@ParseSubstitutions_app sample_externals sample_state sample_loc
           sample_options _ _ eq_refl Hk1 Hk2).
Defined.
